(** * text_sum_pydanticai: chunking, per-chunk summarisation and merging

    A shallow embedding of [text_sum_pydanticai.py].  The NLTK tokenizer,
    the model agent, the JSON parser and the console are what the program
    calls; they are section variables here.  Python exceptions are made
    explicit with the [result] type, and the agent's state is threaded by
    hand. *)

From Stdlib Require Import Ascii String.
From stdpp Require Import base numbers list strings gmap sorting pretty.

Local Open Scope string_scope.
Local Open Scope list_scope.
Local Open Scope Z_scope.

(** ** Python values shared by the components *)

(** [str.join] with one space as the separator. *)
Definition join_space (parts : list string) : string := String.concat " " parts.

(** ** 3. Chunking logic ([chunk_text]) *)

Module Chunker.
Section defs.
(** [nltk.tokenize.sent_tokenize] and [nltk.tokenize.word_tokenize]. *)
Variable sent_tokenize : string -> list string.
Variable word_tokenize : string -> list string.

(** The three loop variables of [chunk_text]. *)
Record loop_state := LoopState {
  chunks : list string;
  current_chunk : list string;
  current_length : Z
}.

Definition loop_init : loop_state := LoopState [] [] 0.

(** One iteration of [for sentence in sentences]. *)
Definition loop_body (max_words : Z) (st : loop_state) (sentence : string)
  : loop_state :=
  let words := word_tokenize sentence in
  if bool_decide (current_length st + Z.of_nat (length words) <= max_words)
  then LoopState (chunks st)
                 (current_chunk st ++ [sentence])
                 (current_length st + Z.of_nat (length words))
  else LoopState (chunks st ++ [join_space (current_chunk st)])
                 [sentence]
                 (Z.of_nat (length words)).

Definition chunk_text (text : string) (max_words : Z) : list string :=
  let sentences := sent_tokenize text in
  let st := foldl (loop_body max_words) loop_init sentences in
  match current_chunk st with
  | [] => chunks st
  | _ :: _ => chunks st ++ [join_space (current_chunk st)]
  end.

(** The default [max_words=200]. *)
Definition chunk_text_default (text : string) : list string :=
  chunk_text text 200.

(** The same loop with every flushed accumulator kept as the list of its
    sentences instead of the joined string: the Chunk of the data model
    (an ordered sequence of sentences). *)
Record group_state := GroupState {
  groups : list (list string);
  group_chunk : list string;
  group_length : Z
}.

Definition group_init : group_state := GroupState [] [] 0.

Definition group_body (max_words : Z) (st : group_state) (sentence : string)
  : group_state :=
  let words := word_tokenize sentence in
  if bool_decide (group_length st + Z.of_nat (length words) <= max_words)
  then GroupState (groups st)
                  (group_chunk st ++ [sentence])
                  (group_length st + Z.of_nat (length words))
  else GroupState (groups st ++ [group_chunk st])
                  [sentence]
                  (Z.of_nat (length words)).

Definition flush_groups (st : group_state) : list (list string) :=
  match group_chunk st with
  | [] => groups st
  | _ :: _ => groups st ++ [group_chunk st]
  end.

Definition chunk_groups (text : string) (max_words : Z) : list (list string) :=
  flush_groups (foldl (group_body max_words) group_init (sent_tokenize text)).

(** [len(word_tokenize(sentence))] and its sum over a group. *)
Definition word_count (s : string) : Z := Z.of_nat (length (word_tokenize s)).

Definition group_words (g : list string) : Z :=
  foldr (fun s n => word_count s + n) 0 g.

(** The words of a sequence of strings, in order. *)
Definition words_of (l : list string) : list string :=
  concat (map word_tokenize l).

(** The loop of [chunk_text] and the loop on groups run in lockstep. *)
Definition joined (gst : group_state) (st : loop_state) : Prop :=
  chunks st = map join_space (groups gst) /\
  current_chunk st = group_chunk gst /\
  current_length st = group_length gst.

(** A group within the limit, or one sentence that alone exceeds it. *)
Definition group_ok (max_words : Z) (g : list string) : Prop :=
  group_words g <= max_words \/
  exists s, g = [s] /\ max_words < word_count s.

(** What the loop on groups keeps true when the limit is not negative. *)
Definition bounded (max_words : Z) (st : group_state) : Prop :=
  Forall (group_ok max_words) (groups st) /\
  group_ok max_words (group_chunk st) /\
  group_length st = group_words (group_chunk st).
End defs.
End Chunker.

(** ** Exceptions *)

(** The exceptions met by the program; all are subclasses of [Exception]. *)
Inductive exn : Type :=
| ValueError (msg : string)
| JSONDecodeError
| TypeError
| ValidationError
| AgentError (msg : string).

(** The outcome of a call: a returned value or a raised exception. *)
Inductive result (A : Type) : Type :=
| Returned (a : A)
| Raised (e : exn).
Arguments Returned {A} a.
Arguments Raised {A} e.

(** ** 2. Pydantic schema ([SummaryOutput]) and JSON values *)

(** What [json.loads] can return. *)
#[warnings="-register-all"]
Inductive json : Type :=
| JNull
| JBool (b : bool)
| JNumber (literal : string)
| JString (s : string)
| JArray (items : list json)
| JObject (members : gmap string json).

Record SummaryOutput := mkSummaryOutput {
  heading : string;
  main_point : string;
  action_items : list string
}.

Module Schema.
(** A field declared [str]: only a string validates (pydantic 2, which
    the agent library is built on, turns no number into a string). *)
Definition validate_str (v : json) : option string :=
  match v with JString s => Some s | _ => None end.

(** A field declared [List[str]]: a list whose items all validate. *)
Definition validate_list_str (v : json) : option (list string) :=
  match v with JArray items => mapM validate_str items | _ => None end.

(** The constructor [SummaryOutput] on the keyword arguments of a dict:
    every field is looked up and validated against its declared type;
    other keys are ignored. *)
Definition construct (kwargs : gmap string json) : result SummaryOutput :=
  match kwargs !! "heading", kwargs !! "main_point", kwargs !! "action_items" with
  | Some h, Some m, Some a =>
      match validate_str h, validate_str m, validate_list_str a with
      | Some h', Some m', Some a' => Returned (mkSummaryOutput h' m' a')
      | _, _, _ => Raised ValidationError
      end
  | _, _, _ => Raised ValidationError
  end.

(** The constructor on [json_data] unpacked as keyword arguments:
    unpacking wants a mapping. *)
Definition construct_from (json_data : json) : result SummaryOutput :=
  match json_data with
  | JObject members => construct members
  | _ => Raised TypeError
  end.
End Schema.

(** ** Python string operations used by the program *)

Module Str.
Definition nl : string := String "010"%char "".
Definition dq : string := String "034"%char "".

(** [s.find(c)] for a one-character [c]: the first index, or [-1]. *)
Fixpoint find (s : string) (c : ascii) : Z :=
  match s with
  | EmptyString => -1
  | String a s' =>
      if Ascii.eqb a c then 0
      else let r := find s' c in if bool_decide (r = -1) then -1 else r + 1
  end.

(** [s.rfind(c)] for a one-character [c]: the last index, or [-1]. *)
Fixpoint rfind (s : string) (c : ascii) : Z :=
  match s with
  | EmptyString => -1
  | String a s' =>
      let r := rfind s' c in
      if bool_decide (r = -1) then (if Ascii.eqb a c then 0 else -1)
      else r + 1
  end.

(** A slice bound as Python clamps it: negative bounds count from the
    end, and every bound is brought into [0 .. len]. *)
Definition clamp (len i : Z) : Z :=
  if bool_decide (i < 0) then Z.max 0 (i + len) else Z.min i len.

(** [s[i:j]] *)
Definition slice (s : string) (i j : Z) : string :=
  let len := Z.of_nat (String.length s) in
  let lo := clamp len i in
  let hi := clamp len j in
  String.substring (Z.to_nat lo) (Z.to_nat (hi - lo)) s.

(** [sub in s] on strings *)
Definition contains (s sub : string) : bool :=
  bool_decide (is_Some (String.index 0 sub s)).
End Str.

(** ** 4. Prompt template ([build_prompt]) *)

Module Prompt.
Import Str.

Definition head : string :=
  "You are an expert at summarizing technical content in strict JSON format." +:+ nl +:+
  nl +:+
  "INPUT TEXT:" +:+ nl.

Definition tail : string :=
  nl +:+
  nl +:+
  "YOUR TASK:" +:+ nl +:+
  "1. Create a SHORT heading (3-7 words)" +:+ nl +:+
  "2. Write a CONCISE main point (1 sentence)" +:+ nl +:+
  "3. List 3 ACTIONABLE items (bullet points)" +:+ nl +:+
  nl +:+
  "REQUIRED JSON FORMAT:" +:+ nl +:+
  "```json" +:+ nl +:+
  "{" +:+ nl +:+
  "    " +:+ dq +:+ "heading" +:+ dq +:+ ": " +:+ dq +:+ "string" +:+ dq +:+ "," +:+ nl +:+
  "    " +:+ dq +:+ "main_point" +:+ dq +:+ ": " +:+ dq +:+ "string" +:+ dq +:+ "," +:+ nl +:+
  "    " +:+ dq +:+ "action_items" +:+ dq +:+ ": [" +:+ dq +:+ "string" +:+ dq +:+ ", "
         +:+ dq +:+ "string" +:+ dq +:+ ", " +:+ dq +:+ "string" +:+ dq +:+ "]" +:+ nl +:+
  "}" +:+ nl +:+
  "EXAMPLE:" +:+ nl +:+
  "{" +:+ nl +:+
  "    " +:+ dq +:+ "heading" +:+ dq +:+ ": " +:+ dq +:+ "Spreadsheet Formatting Basics" +:+ dq +:+ "," +:+ nl +:+
  "    " +:+ dq +:+ "main_point" +:+ dq +:+ ": " +:+ dq
         +:+ "Proper formatting improves spreadsheet readability and functionality."
         +:+ dq +:+ "," +:+ nl +:+
  "    " +:+ dq +:+ "action_items" +:+ dq +:+ ": [" +:+ nl +:+
  "        " +:+ dq +:+ "Use clear column headers" +:+ dq +:+ "," +:+ nl +:+
  "        " +:+ dq +:+ "Apply consistent cell formatting" +:+ dq +:+ "," +:+ nl +:+
  "        " +:+ dq +:+ "Add borders to important sections" +:+ dq +:+ nl +:+
  "    ]" +:+ nl +:+
  "}" +:+ nl +:+
  "```".

(** The console output of [build_prompt] is left out. *)
Definition build_prompt (chunk_text : string) : string :=
  head +:+ chunk_text +:+ tail.
End Prompt.

(** ** 5. Summarize each chunk ([run_summary]) *)

Module Summarizer.
Section defs.
(** The state of the model provider. *)
Variable World : Type.
(** [await agent.run(prompt)]: raises, or returns a result; [None] is a
    result that is falsy or has no [output] attribute, [Some text] one
    whose [output] is [text]. *)
Variable agent_run : string -> World -> result (option string) * World.
(** [json.loads]; [None] when it raises [JSONDecodeError]. *)
Variable json_loads : string -> option json.

Definition max_retries : nat := 2.

Definition required_keys : list string :=
  ["heading"; "main_point"; "action_items"].

(** [key in json_data]: membership on dict keys, list items or
    substrings; other values are not containers. *)
Definition key_in (key : string) (json_data : json) : result bool :=
  match json_data with
  | JObject members => Returned (bool_decide (is_Some (members !! key)))
  | JArray items =>
      Returned (existsb (fun x => match x with
                                  | JString s => bool_decide (s = key)
                                  | _ => false
                                  end) items)
  | JString s => Returned (Str.contains s key)
  | JNull | JBool _ | JNumber _ => Raised TypeError
  end.

(** [all(key in json_data for key in keys)], left to right, stopping at
    the first key that is absent. *)
Fixpoint all_keys_in (keys : list string) (json_data : json) : result bool :=
  match keys with
  | [] => Returned true
  | key :: keys' =>
      match key_in key json_data with
      | Raised e => Raised e
      | Returned false => Returned false
      | Returned true => all_keys_in keys' json_data
      end
  end.

(** What follows [response_text = result.output] in the [try] block.
    [Returned (Some s)] is [return s]; [Returned None] leaves the block
    with no [return]. *)
Definition parse_response (response_text : string)
  : result (option SummaryOutput) :=
  let json_start := Str.find response_text "{" in
  let json_end := Str.rfind response_text "}" + 1 in
  if bool_decide (json_start = -1 \/ json_end = 0)
  then Raised (ValueError "No JSON found in response")
  else
    let json_str := Str.slice response_text json_start json_end in
    match json_loads json_str with
    | None => Raised JSONDecodeError
    | Some json_data =>
        match all_keys_in required_keys json_data with
        | Raised e => Raised e
        | Returned true =>
            match Schema.construct_from json_data with
            | Raised e => Raised e
            | Returned s => Returned (Some s)
            end
        | Returned false => Returned None
        end
    end.

(** The body of the [try] block of one attempt. *)
Definition try_body (prompt : string) (w : World)
  : result (option SummaryOutput) * World :=
  let '(r, w') := agent_run prompt w in
  (match r with
   | Raised e => Raised e
   | Returned None => Returned None
   | Returned (Some response_text) => parse_response response_text
   end, w').

(** [for attempt in attempts]: a [return] leaves the loop; a block left
    with no record and a caught exception both go on to the next attempt
    (by [continue] while [attempt < max_retries - 1], by reaching the end
    of the body on the last one).  [None] follows the loop. *)
Fixpoint retry_loop (attempts : list nat) (prompt : string) (w : World)
  : option SummaryOutput * World :=
  match attempts with
  | [] => (None, w)
  | attempt :: attempts' =>
      let '(r, w') := try_body prompt w in
      match r with
      | Returned (Some s) => (Some s, w')
      | Returned None => retry_loop attempts' prompt w'
      | Raised e => retry_loop attempts' prompt w'
      end
  end.

Definition run_summary (chunk_text : string) (w : World)
  : result (option SummaryOutput) * World :=
  let prompt := Prompt.build_prompt chunk_text in
  let '(r, w') := retry_loop (seq 0 max_retries) prompt w in
  (Returned r, w').

(** The text handed to [json.loads]: from the first opening brace to the
    last closing brace. *)
Definition json_substring (response_text : string) : string :=
  Str.slice response_text (Str.find response_text "{")
            (Str.rfind response_text "}" + 1).

Definition no_brace_pair (response_text : string) : Prop :=
  Str.find response_text "{" = -1 \/ Str.rfind response_text "}" = -1.

Definition parse_fails (response_text : string) : Prop :=
  json_loads (json_substring response_text) = None.

Definition misses_key (response_text : string) : Prop :=
  exists members key,
    json_loads (json_substring response_text) = Some (JObject members) /\
    key ∈ required_keys /\ members !! key = None.

(** A response that gives no record: no brace pair, a text that does not
    parse, or an object that lacks a key. *)
Definition malformed (response_text : string) : Prop :=
  no_brace_pair response_text \/ parse_fails response_text \/
  misses_key response_text.

(** All three keys are there, and some value is not of its field's type. *)
Definition ill_typed (response_text : string) : Prop :=
  ~ no_brace_pair response_text /\
  exists members h m a,
    json_loads (json_substring response_text) = Some (JObject members) /\
    members !! "heading" = Some h /\
    members !! "main_point" = Some m /\
    members !! "action_items" = Some a /\
    (Schema.validate_str h = None \/ Schema.validate_str m = None \/
     Schema.validate_list_str a = None).
End defs.
End Summarizer.

(** ** 6. Summarize all chunks ([summarize_chunks]) *)

Module Orchestrator.
Section defs.
Variable World : Type.
(** [await run_summary(chunk)], as any callee that may return a record,
    return [None] or raise. *)
Variable summarize : string -> World -> result (option SummaryOutput) * World.
(** [print(line)] on the console of the run: [true] when the line is
    written, [false] when encoding it for the console raises
    [UnicodeEncodeError]. *)
Variable console_accepts : string -> bool.

(** The lines printed for a record that came back, in order: heading,
    main point, the title of the items and one numbered line per item. *)
Definition record_lines (summary : SummaryOutput) : list string :=
  ("Summary: " +:+ heading summary)
  :: ("Main Point: " +:+ main_point summary)
  :: "Action Items:"
  :: map (fun e : nat * string => "  " +:+ pretty e.1 +:+ ". " +:+ e.2)
         (zip (seq 1 (length (action_items summary))) (action_items summary)).

(** The prints run one after the other and the first line the console
    refuses raises: they all return exactly when every line is taken. *)
Definition printed (summary : SummaryOutput) : bool :=
  forallb console_accepts (record_lines summary).

(** One iteration of [for i, chunk in enumerate(chunks)].  The [try]
    holds the call, the prints of the record and the append, in this
    order, and its [except] catches every exception: a record is
    appended when one came back and its lines were printed; when a
    print raises, the append is not reached.  When no record came back
    nothing is appended, whether the line printed then is taken or not.
    The lines printed outside the [try] (the banner of the chunk before
    it, the message of the exception in the handler) are left out. *)
Definition loop_body (acc : list SummaryOutput * World) (chunk : string)
  : list SummaryOutput * World :=
  let '(all_summaries, w) := acc in
  let '(r, w') := summarize chunk w in
  match r with
  | Returned (Some summary) =>
      if printed summary then (all_summaries ++ [summary], w')
      else (all_summaries, w')
  | Returned None => (all_summaries, w')
  | Raised e => (all_summaries, w')
  end.

Definition summarize_chunks (chunks : list string) (w : World)
  : result (list SummaryOutput) * World :=
  let '(all_summaries, w') := foldl loop_body ([], w) chunks in
  (Returned all_summaries, w').

(** What each chunk's call gives, in chunk order, with the provider's
    state threaded through. *)
Fixpoint outcomes (chunks : list string) (w : World)
  : list (result (option SummaryOutput)) * World :=
  match chunks with
  | [] => ([], w)
  | chunk :: chunks' =>
      let '(r, w') := summarize chunk w in
      let '(rs, w'') := outcomes chunks' w' in
      (r :: rs, w'')
  end.

(** The record of a successful call. *)
Definition success (r : result (option SummaryOutput)) : option SummaryOutput :=
  match r with
  | Returned (Some summary) => Some summary
  | Returned None => None
  | Raised _ => None
  end.

(** The record of a successful call whose lines were printed: what the
    loop appends. *)
Definition kept (r : result (option SummaryOutput)) : option SummaryOutput :=
  match r with
  | Returned (Some summary) => if printed summary then Some summary else None
  | Returned None => None
  | Raised _ => None
  end.
End defs.
End Orchestrator.

(** ** 7. Final merge ([format_final_output]) *)

Module Merger.
Section defs.
(** [str.lower], [re.sub] with the pattern that matches every character
    that is neither a word character nor white space (replaced by the
    empty string), and [str.strip]. *)
Variable str_lower : string -> string.
Variable re_sub_punct : string -> string.
Variable str_strip : string -> string.

Definition normalize (item : string) : string :=
  str_strip (re_sub_punct (str_lower item)).

(** [enumerate(l, 1)] *)
Definition enumerate1 {A} (l : list A) : list (nat * A) :=
  zip (seq 1 (length l)) l.

Definition item_line (entry : nat * string) : string :=
  "  " +:+ pretty entry.1 +:+ ". " +:+ entry.2 +:+ Str.nl.

Definition chunk_block (entry : nat * SummaryOutput) : string :=
  "CHUNK " +:+ pretty entry.1 +:+ ": " +:+ heading entry.2 +:+ Str.nl +:+
  "Main Point: " +:+ main_point entry.2 +:+ Str.nl +:+
  "Action Items:" +:+ Str.nl +:+
  foldl (fun out e => out +:+ item_line e) "" (enumerate1 (action_items entry.2)) +:+
  Str.nl.

Definition detailed_output (summaries : list SummaryOutput) : string :=
  foldl (fun out e => out +:+ chunk_block e)
        ("=== DETAILED CHUNK SUMMARIES ===" +:+ Str.nl +:+ Str.nl)
        (enumerate1 summaries).

(** The variables of the deduplication loop. *)
Record dedup_state := DedupState {
  seen_actions : gset string;
  action_counter : nat;
  action_mapping : gmap nat string
}.

Definition dedup_init : dedup_state := DedupState ∅ 1 ∅.

(** The body of [for item in summary.action_items]. *)
Definition dedup_item (st : dedup_state) (item : string) : dedup_state :=
  let normalized := normalize item in
  if decide (normalized ∉ seen_actions st)
  then DedupState ({[normalized]} ∪ seen_actions st)
                  (action_counter st + 1)
                  (<[action_counter st := item]> (action_mapping st))
  else st.

(** The body of [for summary in summaries]. *)
Definition dedup_summary (st : dedup_state) (summary : SummaryOutput)
  : dedup_state :=
  foldl dedup_item st (action_items summary).

Definition dedup (summaries : list SummaryOutput) : dedup_state :=
  foldl dedup_summary dedup_init summaries.

(** The order of [sorted] on (number, text) pairs; the numbers are the
    keys of a dict, so no two pairs share one and the texts are never
    compared. *)
Definition entry_le (x y : nat * string) : Prop := (x.1 <= y.1)%nat.

Global Instance entry_le_dec : RelDecision entry_le.
Proof. intros x y. unfold entry_le. apply _. Defined.

(** [sorted(action_mapping.items())] *)
Definition sorted_items (m : gmap nat string) : list (nat * string) :=
  merge_sort entry_le (map_to_list m).

(** The entries of the consolidated section, as they are written. *)
Definition consolidated_entries (summaries : list SummaryOutput)
  : list (nat * string) :=
  sorted_items (action_mapping (dedup summaries)).

Definition entry_line (entry : nat * string) : string :=
  pretty entry.1 +:+ ". " +:+ entry.2 +:+ Str.nl.

Definition consolidated_output (summaries : list SummaryOutput) : string :=
  foldl (fun out e => out +:+ entry_line e)
        ("=== CONSOLIDATED ACTION ITEMS ===" +:+ Str.nl)
        (consolidated_entries summaries).

Definition no_summaries : string := "No valid summaries were generated.".

Definition format_final_output (summaries : list SummaryOutput) : string :=
  match summaries with
  | [] => no_summaries
  | _ :: _ =>
      detailed_output summaries +:+ Str.nl +:+ consolidated_output summaries
  end.

(** All action items of all summaries, in the order the loops meet them. *)
Definition all_items (summaries : list SummaryOutput) : list string :=
  concat (map action_items summaries).

(** The items whose normalized form was not met earlier, given the
    normalized forms [seen] met so far. *)
Fixpoint first_seen (seen : list string) (items : list string) : list string :=
  match items with
  | [] => []
  | item :: items' =>
      if decide (normalize item ∈ seen) then first_seen seen items'
      else item :: first_seen (normalize item :: seen) items'
  end.

(** The state of the loop after the normalized forms [seen] were met and
    the items [texts] were kept. *)
Definition tracks (st : dedup_state) (seen texts : list string) : Prop :=
  (forall x, x ∈ seen_actions st <-> x ∈ seen) /\
  action_counter st = S (length texts) /\
  action_mapping st = list_to_map (enumerate1 texts).
End defs.
End Merger.

(** ** The string functions of the merge, on code points 0 to 255 *)

(** A character stands for the code point of its number, so a string is
    a text of the first 256 code points.  On these, the functions below
    are [str.lower], the substitution of the empty string for every match
    of the pattern for one character that is neither a word character
    nor white space, and [str.strip]. *)
Module PyStr.
Definition between (lo hi n : nat) : bool := Nat.leb lo n && Nat.leb n hi.

(** The characters [str.lower] changes: A to Z and the capital letters
    with accents; each goes 32 code points up. *)
Definition is_upper (c : ascii) : bool :=
  let n := nat_of_ascii c in
  between 65 90 n || between 192 214 n || between 216 222 n.

Definition lower_char (c : ascii) : ascii :=
  if is_upper c then ascii_of_nat (nat_of_ascii c + 32) else c.

(** What the class of word characters matches: digits, letters, the
    underscore, and the letters and numbers among the code points above
    127. *)
Definition is_word (c : ascii) : bool :=
  let n := nat_of_ascii c in
  between 48 57 n || between 65 90 n || Nat.eqb n 95 || between 97 122 n
  || Nat.eqb n 170 || between 178 179 n || Nat.eqb n 181 || between 185 186 n
  || between 188 190 n || between 192 214 n || between 216 246 n
  || between 248 255 n.

(** What the class of white space matches, and what [str.strip] strips. *)
Definition is_space (c : ascii) : bool :=
  let n := nat_of_ascii c in
  between 9 13 n || between 28 32 n || Nat.eqb n 133 || Nat.eqb n 160.

Fixpoint lower (s : string) : string :=
  match s with
  | EmptyString => EmptyString
  | String c s' => String (lower_char c) (lower s')
  end.

Fixpoint re_sub_punct (s : string) : string :=
  match s with
  | EmptyString => EmptyString
  | String c s' =>
      if is_word c || is_space c then String c (re_sub_punct s')
      else re_sub_punct s'
  end.

Fixpoint lstrip (s : string) : string :=
  match s with
  | EmptyString => EmptyString
  | String c s' => if is_space c then lstrip s' else s
  end.

Fixpoint rstrip (s : string) : string :=
  match s with
  | EmptyString => EmptyString
  | String c s' =>
      match rstrip s' with
      | EmptyString => if is_space c then EmptyString else String c EmptyString
      | String _ _ as r => String c r
      end
  end.

Definition strip (s : string) : string := lstrip (rstrip s).
End PyStr.

(** ** The merge with these string functions *)

Module Report.
Definition normalize : string -> string :=
  Merger.normalize PyStr.lower PyStr.re_sub_punct PyStr.strip.

Definition consolidated_entries : list SummaryOutput -> list (nat * string) :=
  Merger.consolidated_entries PyStr.lower PyStr.re_sub_punct PyStr.strip.

Definition format_final_output : list SummaryOutput -> string :=
  Merger.format_final_output PyStr.lower PyStr.re_sub_punct PyStr.strip.

(** Two items that differ only in the case of letters, in characters
    that are neither word characters nor white space, or in white space
    at their ends. *)
Inductive variant : string -> string -> Prop :=
| variant_refl s : variant s s
| variant_sym a b : variant a b -> variant b a
| variant_trans a b c : variant a b -> variant b c -> variant a c
| variant_case pre c post :
    variant (pre +:+ String c post) (pre +:+ String (PyStr.lower_char c) post)
| variant_mark pre c post :
    PyStr.is_word c = false -> PyStr.is_space c = false ->
    variant (pre +:+ String c post) (pre +:+ post)
| variant_lead c s :
    PyStr.is_space c = true -> variant (String c s) s
| variant_trail s c :
    PyStr.is_space c = true -> variant (s +:+ String c EmptyString) s.
End Report.

(** ** Notions used to state what the loops keep *)

Module ChunkerSpec.
Section defs.
Variable word_tokenize : string -> list string.

(** Every group but the last was closed by a sentence that did not fit:
    the first sentence of the next group would have taken it over the
    limit. *)
Fixpoint maximal (max_words : Z) (gs : list (list string)) : Prop :=
  match gs with
  | g1 :: (g2 :: _) as gs' =>
      (exists s rest,
         g2 = s :: rest /\
         max_words < Chunker.group_words word_tokenize g1
                     + Chunker.word_count word_tokenize s) /\
      maximal max_words gs'
  | _ => True
  end.

(** What the loop keeps: the closed groups and the accumulator form a
    maximal sequence, the running count is that of the accumulator, and
    the accumulator is empty only before the first sentence. *)
Definition greedy (max_words : Z) (st : Chunker.group_state) : Prop :=
  maximal max_words (Chunker.groups st ++ [Chunker.group_chunk st]) /\
  Chunker.group_length st
    = Chunker.group_words word_tokenize (Chunker.group_chunk st) /\
  (Chunker.groups st <> [] -> Chunker.group_chunk st <> []).
End defs.
End ChunkerSpec.

Module SummarizerSpec.
Section defs.
Variable json_loads : string -> option json.

(** A response from which the record [s] is built: it has a brace pair,
    the text between the braces parses to an object, and the object has
    the fields of [s] under the three keys. *)
Definition yields (response_text : string) (s : SummaryOutput) : Prop :=
  ~ Summarizer.no_brace_pair response_text /\
  exists members,
    json_loads (Summarizer.json_substring response_text)
      = Some (JObject members) /\
    members !! "heading" = Some (JString (heading s)) /\
    members !! "main_point" = Some (JString (main_point s)) /\
    members !! "action_items" = Some (JArray (JString <$> action_items s)).
End defs.

(** A call of the provider that gives no text: it raised, or its result
    is falsy or has no [output]. *)
Definition no_response (r : result (option string)) : Prop :=
  match r with
  | Returned (Some _) => False
  | Returned None => True
  | Raised _ => True
  end.
End SummarizerSpec.

(** ** Counting the calls of the provider *)

Module Counting.
Section defs.
Variable World : Type.
Variable agent_run : string -> World -> result (option string) * World.

(** The same provider with a counter beside its state, one step up at
    every call. *)
Definition counted (prompt : string) (wn : World * nat)
  : result (option string) * (World * nat) :=
  let '(r, w') := agent_run prompt wn.1 in
  (r, (w', S wn.2)).
End defs.
End Counting.

(** ** 8. Main runner ([main]) *)

Module Main.
(** What opening and reading the input file gives: [FileNotFoundError],
    another exception with its message, or the text of the file. *)
Inductive read_result : Type :=
| FileNotFound
| ReadFailed (msg : string)
| FileRead (full_text : string).

Definition INPUT_FILE : string := "sample_input.txt".

Section defs.
Variable sent_tokenize : string -> list string.
Variable word_tokenize : string -> list string.
Variable World : Type.
Variable agent_run : string -> World -> result (option string) * World.
Variable json_loads : string -> option json.
Variable console_accepts : string -> bool.
Variable str_lower : string -> string.
Variable re_sub_punct : string -> string.
Variable str_strip : string -> string.

(** [main], given what reading the file gave.  The value is the lines
    [main] itself prints, in order (what the functions it calls print is
    no part of it), or the exception that leaves it. *)
Definition main (file : read_result) (w : World)
  : result (list string) * World :=
  match file with
  | FileNotFound =>
      (Returned ["File '" +:+ INPUT_FILE +:+ "' not found"], w)
  | ReadFailed msg =>
      (Returned ["Error reading file: " +:+ msg], w)
  | FileRead full_text =>
      let loaded :=
        "Loaded input file with "
        +:+ pretty (length (word_tokenize full_text)) +:+ " words" in
      let chunks :=
        Chunker.chunk_text_default sent_tokenize word_tokenize full_text in
      let split :=
        Str.nl +:+ "Split into " +:+ pretty (length chunks) +:+ " chunks" in
      let '(r, w') :=
        Orchestrator.summarize_chunks World
          (Summarizer.run_summary World agent_run json_loads)
          console_accepts chunks w in
      match r with
      | Raised e => (Raised e, w')
      | Returned summaries =>
          (Returned
             [loaded; split; Str.nl +:+ "=== FINAL SUMMARY ===";
              Merger.format_final_output str_lower re_sub_punct str_strip
                summaries],
           w')
      end
  end.
End defs.
End Main.

(** ** Stand-ins for the libraries, to run the program on concrete inputs *)

Module Fixtures.
(** Sentences end at a full stop; blanks before a sentence are dropped. *)
Fixpoint sentences_go (cur : string) (s : string) : list string :=
  match s with
  | EmptyString =>
      match cur with EmptyString => [] | _ => [String.rev cur] end
  | String a s' =>
      if Ascii.eqb a "."%char then String.rev (String a cur) :: sentences_go "" s'
      else match cur with
           | EmptyString =>
               if Ascii.is_space a then sentences_go "" s'
               else sentences_go (String a "") s'
           | _ => sentences_go (String a cur) s'
           end
  end.

Definition sent_tokenize (text : string) : list string := sentences_go "" text.

(** Words are the maximal runs of characters other than white space. *)
Definition word_tokenize (text : string) : list string := String.words text.

(** A provider that answers from a script: each call takes the next
    scripted outcome, and raises once the script is used up. *)
Definition script : Type := list (result (option string)).

Definition agent_run (prompt : string) (w : script)
  : result (option string) * script :=
  match w with
  | [] => (Raised (AgentError "connection refused"), [])
  | r :: w' => (r, w')
  end.

(** A parser that knows the documents of a table and rejects the rest. *)
Fixpoint json_loads (table : list (string * json)) (s : string) : option json :=
  match table with
  | [] => None
  | (doc, v) :: table' => if bool_decide (doc = s) then Some v else json_loads table' s
  end.

(** Lower-casing, removal of punctuation and trimming for ASCII text. *)
Definition lower_char (a : ascii) : ascii :=
  let n := nat_of_ascii a in
  if bool_decide (65 <= n <= 90)%nat then ascii_of_nat (n + 32) else a.

Definition is_word_char (a : ascii) : bool :=
  let n := nat_of_ascii a in
  bool_decide ((48 <= n <= 57) \/ (65 <= n <= 90) \/ (97 <= n <= 122) \/ n = 95)%nat.

Fixpoint map_chars (f : ascii -> ascii) (s : string) : string :=
  match s with
  | EmptyString => EmptyString
  | String a s' => String (f a) (map_chars f s')
  end.

Fixpoint filter_chars (p : ascii -> bool) (s : string) : string :=
  match s with
  | EmptyString => EmptyString
  | String a s' => if p a then String a (filter_chars p s') else filter_chars p s'
  end.

Fixpoint lstrip (s : string) : string :=
  match s with
  | EmptyString => EmptyString
  | String a s' => if Ascii.is_space a then lstrip s' else s
  end.

Definition str_lower (s : string) : string := map_chars lower_char s.

Definition re_sub_punct (s : string) : string :=
  filter_chars (fun a => is_word_char a || Ascii.is_space a) s.

Definition str_strip (s : string) : string :=
  String.rev (lstrip (String.rev (lstrip s))).

(** *** Inputs *)

Definition text3 : string := "One two. Three four five. Six.".

(** Documents are written field by field; each comes with the value
    [json.loads] gives for it.  The first has the three keys, with two
    empty strings and an empty list. *)
Definition field (key value : string) : string :=
  Str.dq +:+ key +:+ Str.dq +:+ ": " +:+ value.

Definition quoted (s : string) : string := Str.dq +:+ s +:+ Str.dq.

Definition empty_doc : string :=
  "{" +:+ field "heading" (quoted "") +:+ ", " +:+
  field "main_point" (quoted "") +:+ ", " +:+
  field "action_items" "[]" +:+ "}".

Definition empty_members : gmap string json :=
  <["heading" := JString ""]>
  (<["main_point" := JString ""]>
   (<["action_items" := JArray []]> ∅)).

Definition empty_value : json := JObject empty_members.

(** An object with a heading only. *)
Definition short_doc : string := "{" +:+ field "heading" (quoted "Formatting") +:+ "}".

Definition short_members : gmap string json :=
  <["heading" := JString "Formatting"]> ∅.

Definition short_value : json := JObject short_members.

(** The three keys, with a null heading. *)
Definition null_doc : string :=
  "{" +:+ field "heading" "null" +:+ ", " +:+
  field "main_point" (quoted "Keep it tidy") +:+ ", " +:+
  field "action_items" "[]" +:+ "}".

Definition null_members : gmap string json :=
  <["heading" := JNull]>
  (<["main_point" := JString "Keep it tidy"]>
   (<["action_items" := JArray []]> ∅)).

Definition null_value : json := JObject null_members.

(** The three keys, with action items that are one string. *)
Definition scalar_doc : string :=
  "{" +:+ field "heading" (quoted "Tidy") +:+ ", " +:+
  field "main_point" (quoted "Keep it tidy") +:+ ", " +:+
  field "action_items" (quoted "sweep") +:+ "}".

Definition scalar_members : gmap string json :=
  <["heading" := JString "Tidy"]>
  (<["main_point" := JString "Keep it tidy"]>
   (<["action_items" := JString "sweep"]> ∅)).

Definition scalar_value : json := JObject scalar_members.

Definition table : list (string * json) :=
  [(empty_doc, empty_value); (short_doc, short_value);
   (null_doc, null_value); (scalar_doc, scalar_value)].

Definition run_summary :=
  Summarizer.run_summary script agent_run (json_loads table).

Definition chunk_text := Chunker.chunk_text sent_tokenize word_tokenize.
Definition chunk_groups := Chunker.chunk_groups sent_tokenize word_tokenize.
End Fixtures.

(** *** A provider that is down *)

Module MoreFixtures.
(** Every call raises; there is no state to speak of. *)
Definition down (prompt : string) (w : unit) : result (option string) * unit :=
  (Raised (AgentError "connection refused"), w).

Definition no_parser (s : string) : option json := None.

(** A console that takes every line. *)
Definition any_console (line : string) : bool := true.

(** A console whose encoding is ASCII: a line with a code point above
    127 is refused. *)
Fixpoint ascii_console (line : string) : bool :=
  match line with
  | EmptyString => true
  | String c line' => Nat.ltb (nat_of_ascii c) 128 && ascii_console line'
  end.

(** An answer whose heading has a letter with an accent (code point
    233), and what [json.loads] gives for it. *)
Definition accent_heading : string :=
  "Caf" +:+ String "233"%char EmptyString +:+ " menu".

Definition accent_doc : string :=
  "{" +:+ Fixtures.field "heading" (Fixtures.quoted accent_heading) +:+ ", " +:+
  Fixtures.field "main_point" (Fixtures.quoted "Keep it short.") +:+ ", " +:+
  Fixtures.field "action_items" "[]" +:+ "}".

Definition accent_members : gmap string json :=
  <["heading" := JString accent_heading]>
  (<["main_point" := JString "Keep it short."]>
   (<["action_items" := JArray []]> ∅)).

Definition accent_record : SummaryOutput :=
  mkSummaryOutput accent_heading "Keep it short." [].

Definition accent_table : list (string * json) :=
  (accent_doc, JObject accent_members) :: Fixtures.table.

(** *** The answers of NLTK on five texts *)

(** What [sent_tokenize] and [word_tokenize] of NLTK (punkt, English)
    answer on the text [p. No!!], on its sentences and on their join;
    every other text is left to the stand-ins above.  In the text the
    sentence tokenizer breaks after [p.], because what follows holds a
    break of its own; in the join it does not, so the word tokenizer
    splits the full stop from [p] in the one and not in the other. *)
Definition nltk_sent_tokenize (text : string) : list string :=
  if bool_decide (text = "p. No!!") then ["p."; "No!"; "!"]
  else Fixtures.sent_tokenize text.

Definition nltk_word_tokenize (text : string) : list string :=
  if bool_decide (text = "p. No!!") then ["p"; "."; "No"; "!"; "!"]
  else if bool_decide (text = "p.") then ["p"; "."]
  else if bool_decide (text = "No!") then ["No"; "!"]
  else if bool_decide (text = "!") then ["!"]
  else if bool_decide (text = "p. No! !") then ["p."; "No"; "!"; "!"]
  else Fixtures.word_tokenize text.
End MoreFixtures.

(** * Properties *)

(** ** The chunker *)

Section chunker_facts.
Variable sent_tokenize : string -> list string.
Variable word_tokenize : string -> list string.

Local Abbreviation chunk_text := (Chunker.chunk_text sent_tokenize word_tokenize).
Local Abbreviation chunk_groups := (Chunker.chunk_groups sent_tokenize word_tokenize).
Local Abbreviation loop_body := (Chunker.loop_body word_tokenize).
Local Abbreviation group_body := (Chunker.group_body word_tokenize).
Local Abbreviation word_count := (Chunker.word_count word_tokenize).
Local Abbreviation group_words := (Chunker.group_words word_tokenize).
Local Abbreviation words_of := (Chunker.words_of word_tokenize).
Local Abbreviation joined := Chunker.joined.
Local Abbreviation group_ok := (Chunker.group_ok word_tokenize).
Local Abbreviation bounded := (Chunker.bounded word_tokenize).

Lemma joined_body max_words gst st sentence :
  joined gst st ->
  joined (group_body max_words gst sentence) (loop_body max_words st sentence).
Proof.
  intros (Hc & Hcur & Hlen).
  unfold Chunker.group_body, Chunker.loop_body. rewrite Hlen.
  case_bool_decide; split_and!; simpl; try done.
  - by rewrite Hcur.
  - by rewrite map_app, Hc, Hcur.
Qed.

Lemma joined_foldl max_words sentences : forall gst st,
  joined gst st ->
  joined (foldl (group_body max_words) gst sentences)
         (foldl (loop_body max_words) st sentences).
Proof.
  induction sentences as [|s l IH]; intros gst st H; simpl; [done|].
  by apply IH, joined_body.
Qed.

Lemma chunk_text_groups text max_words :
  chunk_text text max_words = map join_space (chunk_groups text max_words).
Proof.
  unfold Chunker.chunk_text, Chunker.chunk_groups, Chunker.flush_groups.
  destruct (joined_foldl max_words (sent_tokenize text)
              Chunker.group_init Chunker.loop_init) as (Hc & Hcur & _);
    [done|].
  rewrite Hcur, Hc.
  destruct (Chunker.group_chunk _); [done|].
  by rewrite map_app.
Qed.

(** The groups only grow at the end, and together with the accumulator
    they hold the sentences read so far, in order. *)
Lemma group_body_groups max_words st sentence :
  exists new,
    Chunker.groups (group_body max_words st sentence) = Chunker.groups st ++ new /\
    concat new ++ Chunker.group_chunk (group_body max_words st sentence)
      = Chunker.group_chunk st ++ [sentence].
Proof.
  unfold Chunker.group_body. case_bool_decide; simpl.
  - exists []. by rewrite app_nil_r.
  - exists [Chunker.group_chunk st]. simpl. by rewrite app_nil_r.
Qed.

Lemma foldl_groups max_words sentences : forall st,
  exists new,
    Chunker.groups (foldl (group_body max_words) st sentences)
      = Chunker.groups st ++ new /\
    concat new ++ Chunker.group_chunk (foldl (group_body max_words) st sentences)
      = Chunker.group_chunk st ++ sentences.
Proof.
  induction sentences as [|s l IH]; intros st; simpl.
  - exists []. by rewrite !app_nil_r.
  - destruct (group_body_groups max_words st s) as (n1 & Hg1 & Hc1).
    destruct (IH (group_body max_words st s)) as (n2 & Hg2 & Hc2).
    exists (n1 ++ n2). split.
    + by rewrite Hg2, Hg1, app_assoc.
    + rewrite concat_app, <- app_assoc, Hc2, app_assoc, Hc1.
      by rewrite <- app_assoc.
Qed.

Lemma flush_groups_spec max_words sentences st :
  exists new,
    Chunker.flush_groups (foldl (group_body max_words) st sentences)
      = Chunker.groups st ++ new /\
    concat new = Chunker.group_chunk st ++ sentences.
Proof.
  destruct (foldl_groups max_words sentences st) as (new & Hg & Hc).
  unfold Chunker.flush_groups. rewrite Hg.
  destruct (Chunker.group_chunk (foldl _ _ _)) as [|x cur] eqn:E.
  - exists new. by rewrite app_nil_r in Hc.
  - exists (new ++ [x :: cur]). split; [by rewrite app_assoc|].
    rewrite concat_app. simpl. by rewrite app_nil_r.
Qed.

Lemma chunk_groups_concat text max_words :
  concat (chunk_groups text max_words) = sent_tokenize text.
Proof.
  unfold Chunker.chunk_groups.
  destruct (flush_groups_spec max_words (sent_tokenize text) Chunker.group_init)
    as (new & -> & Hc).
  done.
Qed.

Lemma words_of_app l1 l2 : words_of (l1 ++ l2) = words_of l1 ++ words_of l2.
Proof. unfold Chunker.words_of. by rewrite map_app, concat_app. Qed.

Lemma words_of_concat gs :
  words_of (concat gs) = concat (map words_of gs).
Proof.
  induction gs as [|g gs IH]; [done|].
  simpl. by rewrite words_of_app, IH.
Qed.

(** C1: when the tokenizer reads every chunk as the words of its
    sentences, and the text as the words of its sentences, the words of
    the chunks of [chunk_text], concatenated in order, are the words of
    the text: none lost, none added, none moved. *)
Theorem chunk_text_lossless text max_words :
  Forall (fun g => word_tokenize (join_space g) = words_of g)
         (chunk_groups text max_words) ->
  word_tokenize text = words_of (sent_tokenize text) ->
  words_of (chunk_text text max_words) = word_tokenize text.
Proof.
  intros Hjoin Htext.
  rewrite Htext, <- (chunk_groups_concat text max_words), words_of_concat.
  rewrite chunk_text_groups.
  induction Hjoin as [|g gs Hg _ IH]; [done|].
  unfold Chunker.words_of at 1. simpl. rewrite Hg. f_equal. apply IH.
Qed.

Lemma group_words_snoc g s :
  group_words (g ++ [s]) = group_words g + word_count s.
Proof.
  induction g as [|x g IH]; simpl; [lia|]. rewrite IH. lia.
Qed.

Lemma group_words_nonneg g : 0 <= group_words g.
Proof.
  induction g as [|x g IH]; simpl; [done|].
  unfold Chunker.word_count. lia.
Qed.

Lemma bounded_body max_words st sentence :
  bounded max_words st -> bounded max_words (group_body max_words st sentence).
Proof.
  intros (Hgs & Hcur & Hlen). unfold Chunker.group_body.
  fold (word_count sentence).
  case_bool_decide as Hfit; split_and!; simpl.
  - done.
  - left. rewrite group_words_snoc, <- Hlen. done.
  - rewrite group_words_snoc, Hlen. done.
  - apply Forall_app. split; [done|]. by constructor.
  - destruct (decide (word_count sentence <= max_words)).
    + left. simpl. lia.
    + right. exists sentence. split; [done|lia].
  - lia.
Qed.

Lemma bounded_foldl max_words sentences : forall st,
  bounded max_words st ->
  bounded max_words (foldl (group_body max_words) st sentences).
Proof.
  induction sentences as [|s l IH]; intros st H; simpl; [done|].
  by apply IH, bounded_body.
Qed.

Lemma chunk_groups_ok text max_words :
  0 <= max_words -> Forall (group_ok max_words) (chunk_groups text max_words).
Proof.
  intros Hpos. unfold Chunker.chunk_groups, Chunker.flush_groups.
  destruct (bounded_foldl max_words (sent_tokenize text) Chunker.group_init)
    as (Hgs & Hcur & _).
  { split_and!; simpl; [constructor|by left|done]. }
  destruct (Chunker.group_chunk _) eqn:E; [done|].
  apply Forall_app. split; [done|]. by constructor.
Qed.

(** C2 (amended): for a limit that is not negative, every chunk of
    [chunk_text] is the join of a group of sentences that has at most
    [max_words] words, or that is one sentence with more words than
    [max_words]. *)
Theorem chunk_text_bounded text max_words :
  0 <= max_words ->
  Forall2 (fun chunk g =>
             chunk = join_space g /\
             (group_words g <= max_words \/
              exists s, g = [s] /\ max_words < word_count s))
          (chunk_text text max_words) (chunk_groups text max_words).
Proof.
  intros Hpos. rewrite chunk_text_groups.
  pose proof (chunk_groups_ok text max_words Hpos) as Hok.
  induction Hok as [|g gs Hg _ IH]; simpl; constructor; auto.
Qed.

Lemma group_words_length g : group_words g = Z.of_nat (length (words_of g)).
Proof.
  unfold Chunker.words_of. induction g as [|x g IH]; simpl; [done|].
  rewrite IH, length_app. unfold Chunker.word_count. lia.
Qed.

(** The same bound with the words counted on the chunk itself, for a
    tokenizer that reads every chunk as the words of its sentences. *)
Lemma chunk_text_bounded_tokenized text max_words :
  0 <= max_words ->
  Forall (fun g => word_tokenize (join_space g) = words_of g)
         (chunk_groups text max_words) ->
  Forall (fun chunk =>
            word_count chunk <= max_words \/
            chunk ∈ sent_tokenize text /\ max_words < word_count chunk)
         (chunk_text text max_words).
Proof.
  intros Hpos Hjoin. rewrite chunk_text_groups.
  pose proof (chunk_groups_ok text max_words Hpos) as Hok.
  assert (Hin : forall g, g ∈ chunk_groups text max_words ->
                          forall s, s ∈ g -> s ∈ sent_tokenize text).
  { intros g Hg s Hs. rewrite <- (chunk_groups_concat text max_words).
    apply list_elem_of_In, in_concat. exists g.
    split; by apply list_elem_of_In. }
  rewrite Forall_fmap. apply Forall_forall. intros g Hg. simpl.
  rewrite Forall_forall in Hjoin, Hok.
  destruct (Hok g Hg) as [Hle|(s & -> & Hbig)].
  - left. unfold Chunker.word_count. rewrite (Hjoin g Hg).
    by rewrite <- group_words_length.
  - right. split; [|done]. apply (Hin [s]); [done|]. by left.
Qed.

(** The running count is never negative. *)
Lemma group_length_nonneg max_words sentences : forall st,
  0 <= Chunker.group_length st ->
  0 <= Chunker.group_length (foldl (group_body max_words) st sentences).
Proof.
  induction sentences as [|s l IH]; intros st H; simpl; [done|].
  apply IH. unfold Chunker.group_body. case_bool_decide; simpl; lia.
Qed.

(** A sentence with more words than the limit closes the accumulator
    before it and is closed, alone, by whatever follows it. *)
Lemma oversized_alone max_words pre s post :
  max_words < word_count s ->
  let st := foldl (group_body max_words) Chunker.group_init pre in
  exists gpost,
    Chunker.flush_groups
      (foldl (group_body max_words) Chunker.group_init (pre ++ s :: post))
      = (Chunker.groups st ++ [Chunker.group_chunk st]) ++ [s] :: gpost /\
    concat (Chunker.groups st ++ [Chunker.group_chunk st]) = pre /\
    concat gpost = post.
Proof.
  intros Hbig st.
  assert (Hpre : concat (Chunker.groups st ++ [Chunker.group_chunk st]) = pre).
  { destruct (foldl_groups max_words pre Chunker.group_init) as (new & Hg & Hc).
    fold st in Hg, Hc. simpl in Hg, Hc. rewrite Hg, concat_app. simpl.
    by rewrite app_nil_r. }
  assert (Hlen : 0 <= Chunker.group_length st).
  { by apply group_length_nonneg. }
  rewrite foldl_app. fold st. simpl.
  assert (Hstep : group_body max_words st s
                  = Chunker.GroupState
                      (Chunker.groups st ++ [Chunker.group_chunk st])
                      [s] (word_count s)).
  { unfold Chunker.group_body. fold (word_count s).
    case_bool_decide; [lia|done]. }
  rewrite Hstep. clear Hstep.
  destruct post as [|t post].
  - exists []. simpl. unfold Chunker.flush_groups. simpl. done.
  - simpl.
    assert (Hstep : group_body max_words
                      (Chunker.GroupState
                         (Chunker.groups st ++ [Chunker.group_chunk st])
                         [s] (word_count s)) t
                    = Chunker.GroupState
                        ((Chunker.groups st ++ [Chunker.group_chunk st]) ++ [[s]])
                        [t] (word_count t)).
    { unfold Chunker.group_body. simpl. fold (word_count t).
      case_bool_decide as Hfit; [|done].
      unfold Chunker.word_count in *. lia. }
    rewrite Hstep. clear Hstep.
    destruct (flush_groups_spec max_words post
                (Chunker.GroupState
                   ((Chunker.groups st ++ [Chunker.group_chunk st]) ++ [[s]])
                   [t] (word_count t))) as (new & Hg & Hc).
    simpl in Hg, Hc. exists new. rewrite Hg, <- app_assoc. done.
Qed.

(** C3: a sentence with more words than [max_words] is a chunk of its
    own: the chunks before it hold exactly the sentences before it, the
    chunks after it exactly the sentences after it, and the chunk
    between them is the sentence itself, whole. *)
Theorem oversized_sentence_own_chunk text max_words pre s post :
  sent_tokenize text = pre ++ s :: post ->
  max_words < word_count s ->
  exists gpre gpost,
    chunk_groups text max_words = gpre ++ [s] :: gpost /\
    concat gpre = pre /\ concat gpost = post /\
    chunk_text text max_words
      = map join_space gpre ++ s :: map join_space gpost.
Proof.
  intros Hsents Hbig.
  destruct (oversized_alone max_words pre s post Hbig) as (gpost & Hg & Hpre & Hpost).
  eexists _, gpost. rewrite chunk_text_groups.
  unfold Chunker.chunk_groups. rewrite Hsents, Hg.
  split_and!; [done..|].
  by rewrite map_app.
Qed.

(** C9: when the first sentence has more words than [max_words], the
    accumulator is flushed while still empty: the first chunk is the
    empty string, and the sentence is the second. *)
Theorem leading_empty_chunk text max_words s rest :
  sent_tokenize text = s :: rest ->
  max_words < word_count s ->
  exists tl, chunk_text text max_words = "" :: s :: tl.
Proof.
  intros Hsents Hbig.
  destruct (oversized_alone max_words [] s rest Hbig) as (gpost & Hg & _).
  rewrite chunk_text_groups.
  unfold Chunker.chunk_groups. rewrite Hsents.
  change (s :: rest) with ([] ++ s :: rest). rewrite Hg.
  by exists (map join_space gpost).
Qed.
End chunker_facts.

(** ** The summarization client *)

Section summarizer_facts.
Variable World : Type.
Variable agent_run : string -> World -> result (option string) * World.
Variable json_loads : string -> option json.

Local Abbreviation parse_response := (Summarizer.parse_response json_loads).
Local Abbreviation try_body := (Summarizer.try_body World agent_run json_loads).
Local Abbreviation retry_loop := (Summarizer.retry_loop World agent_run json_loads).
Local Abbreviation run_summary := (Summarizer.run_summary World agent_run json_loads).
Local Abbreviation json_substring := Summarizer.json_substring.
Local Abbreviation no_brace_pair := Summarizer.no_brace_pair.
Local Abbreviation parse_fails := (Summarizer.parse_fails json_loads).
Local Abbreviation malformed := (Summarizer.malformed json_loads).
Local Abbreviation ill_typed := (Summarizer.ill_typed json_loads).

Lemma all_keys_in_missing members key keys :
  key ∈ keys -> members !! key = None ->
  Summarizer.all_keys_in keys (JObject members) = Returned false.
Proof.
  intros Hin Hnone. induction keys as [|k keys IH]; [by inv Hin|].
  simpl. case_bool_decide as Hk; [|done].
  apply IH. inv Hin; [|done].
  rewrite Hnone in Hk. by destruct Hk.
Qed.

Lemma all_keys_in_present members keys :
  Forall (fun key => is_Some (members !! key)) keys ->
  Summarizer.all_keys_in keys (JObject members) = Returned true.
Proof.
  induction 1 as [|k keys Hk _ IH]; [done|].
  simpl. by rewrite bool_decide_eq_true_2.
Qed.

Lemma parse_response_braces response_text :
  ~ no_brace_pair response_text ->
  parse_response response_text =
  match json_loads (json_substring response_text) with
  | None => Raised JSONDecodeError
  | Some json_data =>
      match Summarizer.all_keys_in Summarizer.required_keys json_data with
      | Raised e => Raised e
      | Returned true =>
          match Schema.construct_from json_data with
          | Raised e => Raised e
          | Returned s => Returned (Some s)
          end
      | Returned false => Returned None
      end
  end.
Proof.
  intros Hb. unfold Summarizer.parse_response, Summarizer.no_brace_pair in *.
  case_bool_decide as H; [|done].
  exfalso. apply Hb. destruct H; [by left|right; lia].
Qed.

(** A malformed response gives no record: the block raises or is left
    with no [return]. *)
Lemma parse_response_malformed response_text :
  malformed response_text ->
  (exists e, parse_response response_text = Raised e) \/
  parse_response response_text = Returned None.
Proof.
  intros H.
  destruct (decide (no_brace_pair response_text)) as [Hb|Hb].
  { left. eexists. unfold Summarizer.parse_response.
    rewrite bool_decide_eq_true_2; [done|].
    destruct Hb as [->| ->]; auto. }
  rewrite parse_response_braces by done.
  destruct H as [H|[H|(members & key & Hload & Hin & Hnone)]]; [done|..].
  - left. eexists. unfold Summarizer.parse_fails in H. by rewrite H.
  - right. rewrite Hload.
    by rewrite (all_keys_in_missing members key).
Qed.

Lemma parse_response_ill_typed response_text :
  ill_typed response_text ->
  parse_response response_text = Raised ValidationError.
Proof.
  intros (Hb & members & h & m & a & Hload & Hh & Hm & Ha & Hbad).
  rewrite parse_response_braces, Hload by done.
  rewrite all_keys_in_present.
  2:{ unfold Summarizer.required_keys. repeat constructor; eauto. }
  simpl. unfold Schema.construct. rewrite Hh, Hm, Ha.
  destruct Hbad as [-> | [-> | ->]]; [done|..].
  - by destruct (Schema.validate_str h).
  - by destruct (Schema.validate_str h), (Schema.validate_str m).
Qed.

(** Two attempts that give no record: [None] comes back, with the
    provider's state after the second call. *)
Lemma run_summary_exhausted chunk_text w r1 w1 r2 w2 :
  try_body (Prompt.build_prompt chunk_text) w = (r1, w1) ->
  try_body (Prompt.build_prompt chunk_text) w1 = (r2, w2) ->
  (forall s, r1 <> Returned (Some s)) ->
  (forall s, r2 <> Returned (Some s)) ->
  run_summary chunk_text w = (Returned None, w2).
Proof.
  intros H1 H2 Hr1 Hr2. unfold Summarizer.run_summary. simpl.
  rewrite H1.
  destruct r1 as [[s|]|e]; [by destruct (Hr1 s)|..]; rewrite H2;
    (destruct r2 as [[s|]|e']; [by destruct (Hr2 s)|done..]).
Qed.

Lemma try_body_response prompt w response_text w' :
  agent_run prompt w = (Returned (Some response_text), w') ->
  try_body prompt w = (parse_response response_text, w').
Proof. intros H. unfold Summarizer.try_body. by rewrite H. Qed.

(** C4: when the response of each of the two attempts has no brace
    pair, or does not parse, or parses to an object that lacks one of the
    three keys, [run_summary] returns [None]; it does not raise. *)
Theorem run_summary_malformed_none chunk_text w r1 w1 r2 w2 :
  agent_run (Prompt.build_prompt chunk_text) w = (Returned (Some r1), w1) ->
  malformed r1 ->
  agent_run (Prompt.build_prompt chunk_text) w1 = (Returned (Some r2), w2) ->
  malformed r2 ->
  Summarizer.max_retries = 2%nat /\
  run_summary chunk_text w = (Returned None, w2).
Proof.
  intros Ha1 Hm1 Ha2 Hm2. split; [done|].
  eapply run_summary_exhausted; eauto using try_body_response.
  - intros s Hs. destruct (parse_response_malformed r1 Hm1) as [[e He]|He];
      congruence.
  - intros s Hs. destruct (parse_response_malformed r2 Hm2) as [[e He]|He];
      congruence.
Qed.


Lemma retry_loop_record attempts prompt : forall w s w',
  retry_loop attempts prompt w = (Some s, w') ->
  exists w0, try_body prompt w0 = (Returned (Some s), w').
Proof.
  induction attempts as [|attempt attempts IH]; intros w s w' H; [done|].
  simpl in H. destruct (try_body prompt w) as [r w1] eqn:E.
  destruct r as [[s1|]|e]; eauto.
  inv H. eauto.
Qed.

Lemma validate_list_str_Some a items :
  Schema.validate_list_str a = Some items -> a = JArray (JString <$> items).
Proof.
  destruct a as [| | | |l|]; try done. simpl. intros H. f_equal.
  apply mapM_Some in H.
  induction H as [|x y l k Hx _ IH]; [done|].
  destruct x; try done. simpl in Hx. injection Hx as ->.
  by rewrite fmap_cons, IH.
Qed.

Lemma construct_Returned members s :
  Schema.construct members = Returned s ->
  members !! "heading" = Some (JString (heading s)) /\
  members !! "main_point" = Some (JString (main_point s)) /\
  members !! "action_items" = Some (JArray (JString <$> action_items s)).
Proof.
  unfold Schema.construct.
  destruct (members !! "heading") as [h|]; [|done].
  destruct (members !! "main_point") as [m|]; [|done].
  destruct (members !! "action_items") as [a|]; [|done].
  destruct h; try done. destruct m; try done.
  simpl. destruct (Schema.validate_list_str a) as [items|] eqn:Ha; [|done].
  intros H. inv H. simpl.
  by rewrite (validate_list_str_Some _ _ Ha).
Qed.

Lemma parse_response_record response_text s :
  parse_response response_text = Returned (Some s) ->
  exists members,
    json_loads (json_substring response_text) = Some (JObject members) /\
    Schema.construct members = Returned s.
Proof.
  unfold Summarizer.parse_response. case_bool_decide; [done|].
  fold (json_substring response_text).
  destruct (json_loads (json_substring response_text)) as [json_data|]; [|done].
  destruct (Summarizer.all_keys_in _ _) as [[]|]; [|done..].
  destruct json_data; try done. simpl.
  destruct (Schema.construct members) eqn:E; [|done].
  intros [= ->]. eauto.
Qed.

(** C5 (amended): a record returned by [run_summary] was built from a
    response of the provider that parses to an object in which the
    three keys are present, [heading] and [main_point] with strings and
    [action_items] with a list of strings, and the record holds these
    values. *)
Theorem run_summary_record_fields chunk_text w s w' :
  run_summary chunk_text w = (Returned (Some s), w') ->
  exists w0 response_text members,
    agent_run (Prompt.build_prompt chunk_text) w0
      = (Returned (Some response_text), w') /\
    json_loads (json_substring response_text) = Some (JObject members) /\
    members !! "heading" = Some (JString (heading s)) /\
    members !! "main_point" = Some (JString (main_point s)) /\
    members !! "action_items" = Some (JArray (JString <$> action_items s)).
Proof.
  unfold Summarizer.run_summary. intros H.
  destruct (retry_loop _ _ w) as [r w1] eqn:E. inv H.
  apply retry_loop_record in E as (w0 & E).
  unfold Summarizer.try_body in E.
  destruct (agent_run _ w0) as [[[response_text|]|e] w1] eqn:Ha;
    try discriminate E.
  injection E as Hparse ->.
  apply parse_response_record in Hparse as (members & Hload & Hc).
  apply construct_Returned in Hc.
  exists w0, response_text, members. by rewrite Ha.
Qed.
End summarizer_facts.

(** ** The chunk orchestrator *)

Section orchestrator_facts.
Variable World : Type.
Variable summarize : string -> World -> result (option SummaryOutput) * World.
Variable console_accepts : string -> bool.

Local Abbreviation loop_body :=
  (Orchestrator.loop_body World summarize console_accepts).
Local Abbreviation summarize_chunks :=
  (Orchestrator.summarize_chunks World summarize console_accepts).
Local Abbreviation outcomes := (Orchestrator.outcomes World summarize).
Local Abbreviation printed := (Orchestrator.printed console_accepts).
Local Abbreviation kept := (Orchestrator.kept console_accepts).

Lemma foldl_loop_body chunks : forall all_summaries w,
  foldl loop_body (all_summaries, w) chunks
  = (all_summaries ++ omap kept (outcomes chunks w).1,
     (outcomes chunks w).2).
Proof.
  induction chunks as [|chunk chunks IH]; intros acc w; simpl.
  - by rewrite app_nil_r.
  - destruct (summarize chunk w) as [r w1] eqn:E.
    destruct (outcomes chunks w1) as [rs w2] eqn:Eo.
    assert (Hrs : forall acc', foldl loop_body (acc', w1) chunks
              = (acc' ++ omap kept rs, w2)).
    { intros acc'. by rewrite IH, Eo. }
    destruct r as [[summary|]|e]; simpl; [|by rewrite Hrs..].
    destruct (printed summary); rewrite Hrs; [|done].
    by rewrite <- app_assoc.
Qed.

(** Where every record that came back was printed, what is kept is what
    succeeded. *)
Lemma omap_kept_success rs :
  Forall (fun r => forall s, r = Returned (Some s) -> printed s = true) rs ->
  omap kept rs = omap Orchestrator.success rs.
Proof.
  induction 1 as [|r rs Hr _ IH]; [done|].
  destruct r as [[summary|]|e];
    cbn [omap list_omap Orchestrator.kept Orchestrator.success];
    [|exact IH..].
  rewrite (Hr summary eq_refl). f_equal. exact IH.
Qed.

(** C6 (amended): when the console takes the lines of every record that
    comes back, [summarize_chunks] returns, and what it returns are the
    records of the calls that gave one, in chunk order; a call that
    returns [None] or raises adds nothing and stops nothing. *)
Theorem summarize_chunks_successes chunks w :
  Forall (fun r => forall s, r = Returned (Some s) -> printed s = true)
         (outcomes chunks w).1 ->
  summarize_chunks chunks w
  = (Returned (omap Orchestrator.success (outcomes chunks w).1),
     (outcomes chunks w).2).
Proof.
  intros Hprinted. unfold Orchestrator.summarize_chunks.
  by rewrite foldl_loop_body, omap_kept_success.
Qed.
End orchestrator_facts.

(** ** The merger *)

Section merger_facts.
Variable str_lower : string -> string.
Variable re_sub_punct : string -> string.
Variable str_strip : string -> string.

Local Abbreviation normalize := (Merger.normalize str_lower re_sub_punct str_strip).
Local Abbreviation dedup_item := (Merger.dedup_item str_lower re_sub_punct str_strip).
Local Abbreviation dedup := (Merger.dedup str_lower re_sub_punct str_strip).
Local Abbreviation first_seen := (Merger.first_seen str_lower re_sub_punct str_strip).
Local Abbreviation consolidated_entries :=
  (Merger.consolidated_entries str_lower re_sub_punct str_strip).
Local Abbreviation consolidated_output :=
  (Merger.consolidated_output str_lower re_sub_punct str_strip).
Local Abbreviation format_final_output :=
  (Merger.format_final_output str_lower re_sub_punct str_strip).
Local Abbreviation tracks := Merger.tracks.

(** C7: on the empty sequence of summaries [format_final_output]
    returns the fixed sentence, and no report. *)
Theorem format_final_output_empty :
  format_final_output [] = "No valid summaries were generated.".
Proof. reflexivity. Qed.

(** *** The two nested loops are one loop over all the items *)

Lemma dedup_all_items summaries :
  dedup summaries = foldl dedup_item Merger.dedup_init (Merger.all_items summaries).
Proof.
  unfold Merger.dedup, Merger.all_items.
  generalize Merger.dedup_init.
  induction summaries as [|s l IH]; intros st; simpl; [done|].
  by rewrite foldl_app, IH.
Qed.

(** *** The numbered entries *)

Lemma enumerate1_snoc {A} (l : list A) x :
  Merger.enumerate1 (l ++ [x]) = Merger.enumerate1 l ++ [(S (length l), x)].
Proof.
  unfold Merger.enumerate1.
  rewrite length_app, seq_app. simpl.
  rewrite zip_with_app by (by rewrite length_seq). done.
Qed.

Lemma enumerate1_keys {A} (l : list A) :
  (Merger.enumerate1 l).*1 = seq 1 (length l).
Proof. unfold Merger.enumerate1. apply fst_zip. by rewrite length_seq. Qed.

Lemma enumerate1_texts {A} (l : list A) : (Merger.enumerate1 l).*2 = l.
Proof. unfold Merger.enumerate1. apply snd_zip. by rewrite length_seq. Qed.

Lemma zip_seq_sorted (l : list string) : forall a,
  Sorted Merger.entry_le (zip (seq a (length l)) l).
Proof.
  induction l as [|x l IH]; intros a; simpl; constructor; [apply IH|].
  destruct l; simpl; constructor. unfold Merger.entry_le. simpl. lia.
Qed.

Local Instance entry_le_trans : Transitive Merger.entry_le.
Proof. intros x y z. unfold Merger.entry_le. lia. Qed.

Local Instance entry_le_total : Total Merger.entry_le.
Proof. intros x y. unfold Merger.entry_le. lia. Qed.

(** Sorting the items of the dict that numbers [texts] from 1 gives the
    numbered texts back. *)
Lemma sorted_items_enumerate1 (texts : list string) :
  Merger.sorted_items (list_to_map (Merger.enumerate1 texts))
  = Merger.enumerate1 texts.
Proof.
  assert (Hnd : NoDup (Merger.enumerate1 texts).*1).
  { rewrite enumerate1_keys. apply NoDup_seq. }
  assert (Hperm : Merger.sorted_items (list_to_map (Merger.enumerate1 texts))
                  ≡ₚ Merger.enumerate1 texts).
  { unfold Merger.sorted_items.
    by rewrite merge_sort_Permutation, map_to_list_to_map. }
  apply (Sorted_unique_strong Merger.entry_le); [| | |done].
  - intros x1 x2 H1 H2 H12 H21. rewrite Hperm in H1.
    assert (x1.1 = x2.1) as Hk by (unfold Merger.entry_le in *; lia).
    destruct x1 as [k1 v1], x2 as [k2 v2]. simpl in Hk. subst k2.
    f_equal.
    assert (Hl : (list_to_map (Merger.enumerate1 texts) : gmap nat string) !! k1
                 = Some v1) by (by apply elem_of_list_to_map_1).
    assert (Hr : (list_to_map (Merger.enumerate1 texts) : gmap nat string) !! k1
                 = Some v2) by (by apply elem_of_list_to_map_1).
    congruence.
  - apply Sorted_merge_sort. apply _.
  - apply zip_seq_sorted.
Qed.

(** *** The loop keeps the first-seen items, numbered from 1 *)

Lemma tracks_seen st seen texts item :
  tracks st seen texts -> normalize item ∈ seen -> dedup_item st item = st.
Proof.
  intros (Hseen & _) Hin. unfold Merger.dedup_item.
  case_decide as Hn; [|done]. destruct Hn. by apply Hseen.
Qed.

Lemma tracks_new st seen texts item :
  tracks st seen texts -> normalize item ∉ seen ->
  tracks (dedup_item st item) (normalize item :: seen) (texts ++ [item]).
Proof.
  intros (Hseen & Hcount & Hmap) Hnew. unfold Merger.dedup_item.
  case_decide as Hn; [|by apply Hseen in Hn].
  split_and!; simpl.
  - intros x. rewrite elem_of_union, elem_of_singleton, elem_of_cons, Hseen.
    done.
  - rewrite length_app, Hcount. simpl. lia.
  - rewrite enumerate1_snoc, list_to_map_snoc, Hmap, Hcount; [done|].
    rewrite enumerate1_keys, elem_of_seq. lia.
Qed.

Lemma tracks_foldl items : forall st seen texts,
  tracks st seen texts ->
  exists seen',
    tracks (foldl dedup_item st items) seen' (texts ++ first_seen seen items).
Proof.
  induction items as [|item items IH]; intros st seen texts H; simpl.
  - exists seen. by rewrite app_nil_r.
  - case_decide as Hin.
    + rewrite (tracks_seen st seen texts) by done. by apply IH.
    + destruct (IH _ _ _ (tracks_new st seen texts item H Hin)) as (seen' & H').
      exists seen'. by rewrite <- app_assoc in H'.
Qed.

Lemma consolidated_entries_spec summaries :
  consolidated_entries summaries
  = Merger.enumerate1 (first_seen [] (Merger.all_items summaries)).
Proof.
  unfold Merger.consolidated_entries. rewrite dedup_all_items.
  destruct (tracks_foldl (Merger.all_items summaries) Merger.dedup_init [] [])
    as (seen' & _ & _ & ->).
  { split_and!; simpl; [|done..]. intros x. set_solver. }
  apply sorted_items_enumerate1.
Qed.

(** *** What [first_seen] keeps *)

Lemma first_seen_fresh items : forall seen e,
  e ∈ first_seen seen items ->
  (normalize e ∉ seen) /\
  exists pre post,
    items = pre ++ e :: post /\
    Forall (fun x => normalize x <> normalize e) pre.
Proof.
  induction items as [|item items IH]; intros seen e He; simpl in He.
  { by apply elem_of_nil in He. }
  case_decide as Hin.
  - destruct (IH _ _ He) as (Hn & pre & post & -> & Hpre).
    split; [done|]. exists (item :: pre), post. split; [done|].
    constructor; [|done]. intros Heq. apply Hn. by rewrite <- Heq.
  - apply elem_of_cons in He as [->|He].
    + split; [done|]. by exists [], items.
    + destruct (IH _ _ He) as (Hn & pre & post & -> & Hpre).
      rewrite not_elem_of_cons in Hn. destruct Hn as (Hne & Hn).
      split; [done|]. exists (item :: pre), post. split; [done|].
      constructor; [|done]. congruence.
Qed.

Lemma first_seen_NoDup items : forall seen,
  NoDup (normalize <$> first_seen seen items).
Proof.
  induction items as [|item items IH]; intros seen; simpl; [constructor|].
  case_decide as Hin; [apply IH|].
  rewrite fmap_cons. constructor; [|apply IH].
  intros Hdup. apply list_elem_of_fmap in Hdup as (e & Heq & He).
  apply first_seen_fresh in He as (Hn & _).
  apply Hn. rewrite Heq. by left.
Qed.

Lemma first_seen_covers items : forall seen item,
  item ∈ items ->
  normalize item ∈ seen \/
  exists e, e ∈ first_seen seen items /\ normalize e = normalize item.
Proof.
  induction items as [|x items IH]; intros seen item Hin; simpl.
  { by apply elem_of_nil in Hin. }
  apply elem_of_cons in Hin as [->|Hin].
  - case_decide as Hx; [by left|]. right. exists x. split; [by left|done].
  - case_decide as Hx.
    + by apply IH.
    + destruct (IH (normalize x :: seen) item Hin) as [Hs|(e & He & Heq)].
      * apply elem_of_cons in Hs as [Hs|Hs]; [|by left].
        right. exists x. split; [by left|done].
      * right. exists e. split; [by right|done].
Qed.

Lemma first_seen_order items : forall seen l1 e1 l2 e2 l3,
  first_seen seen items = l1 ++ e1 :: l2 ++ e2 :: l3 ->
  exists p1 p2 p3,
    items = p1 ++ e1 :: p2 ++ e2 :: p3 /\
    Forall (fun x => normalize x <> normalize e1) p1 /\
    Forall (fun x => normalize x <> normalize e2) (p1 ++ e1 :: p2).
Proof.
  induction items as [|item items IH]; intros seen l1 e1 l2 e2 l3 H; simpl in H.
  { by destruct l1. }
  assert (Hprepend : forall seen' l1,
    first_seen seen' items = l1 ++ e1 :: l2 ++ e2 :: l3 ->
    normalize item ∈ seen' ->
    exists p1 p2 p3,
      item :: items = p1 ++ e1 :: p2 ++ e2 :: p3 /\
      Forall (fun x => normalize x <> normalize e1) p1 /\
      Forall (fun x => normalize x <> normalize e2) (p1 ++ e1 :: p2)).
  { clear l1 H. intros seen' l1 H' Hin.
    destruct (first_seen_fresh items seen' e1) as (Hn1 & _).
    { rewrite H'. set_solver. }
    destruct (first_seen_fresh items seen' e2) as (Hn2 & _).
    { rewrite H'. set_solver. }
    destruct (IH _ _ _ _ _ _ H') as (p1 & p2 & p3 & -> & Hp1 & Hp2).
    exists (item :: p1), p2, p3. split_and!; [done|..].
    - constructor; [|done]. intros Heq. apply Hn1. by rewrite <- Heq.
    - simpl. constructor; [|done]. intros Heq. apply Hn2. by rewrite <- Heq. }
  case_decide as Hin; [by eapply Hprepend|].
  destruct l1 as [|y l1]; simpl in H; injection H as -> H.
  - destruct (first_seen_fresh items (normalize e1 :: seen) e2)
      as (Hn2 & pre & post & -> & Hpre).
    { rewrite H. set_solver. }
    exists [], pre, post. split_and!; [done|constructor|].
    simpl. constructor; [|done]. intros Heq. apply Hn2. rewrite Heq. by left.
  - eapply Hprepend; [done|]. by left.
Qed.

(** Whatever the three string functions are: for a sequence of summaries
    that is not empty, the report ends with the consolidated section,
    whose entries are numbered 1, 2, ... and carry the first-seen items
    in the order they are met: no two entries have the same normalized
    form, every item's normalized form is that of an entry, every entry
    is the first item met with its normalized form, and an entry that
    comes before another was first met before it. *)
Lemma consolidated_section_any_normalization summary rest :
  let summaries := summary :: rest in
  let items := Merger.all_items summaries in
  let texts := (consolidated_entries summaries).*2 in
  format_final_output summaries
    = Merger.detailed_output summaries +:+ Str.nl +:+
      foldl (fun out e => out +:+ Merger.entry_line e)
            ("=== CONSOLIDATED ACTION ITEMS ===" +:+ Str.nl)
            (consolidated_entries summaries) /\
  (consolidated_entries summaries).*1 = seq 1 (length texts) /\
  texts = first_seen [] items /\
  NoDup (normalize <$> texts) /\
  (forall item, item ∈ items ->
     exists e, e ∈ texts /\ normalize e = normalize item) /\
  (forall e, e ∈ texts ->
     exists pre post,
       items = pre ++ e :: post /\
       Forall (fun x => normalize x <> normalize e) pre) /\
  (forall l1 e1 l2 e2 l3, texts = l1 ++ e1 :: l2 ++ e2 :: l3 ->
     exists p1 p2 p3,
       items = p1 ++ e1 :: p2 ++ e2 :: p3 /\
       Forall (fun x => normalize x <> normalize e1) p1 /\
       Forall (fun x => normalize x <> normalize e2) (p1 ++ e1 :: p2)).
Proof.
  intros summaries items texts.
  assert (Htexts : texts = first_seen [] items).
  { unfold texts. by rewrite consolidated_entries_spec, enumerate1_texts. }
  split_and!.
  - done.
  - by rewrite Htexts, consolidated_entries_spec, enumerate1_keys.
  - done.
  - rewrite Htexts. apply first_seen_NoDup.
  - intros item Hin. rewrite Htexts.
    destruct (first_seen_covers items [] item Hin) as [Hs|H]; [|done].
    by apply elem_of_nil in Hs.
  - intros e He. rewrite Htexts in He.
    by destruct (first_seen_fresh items [] e He) as (_ & H).
  - intros l1 e1 l2 e2 l3 H. rewrite Htexts in H.
    by eapply first_seen_order.
Qed.
End merger_facts.

(** * The program on concrete inputs *)

Module Runs.
Import Fixtures.

(** *** The chunker *)

(** With the limit 3 the three sentences are three chunks, and their
    words are the words of the text. *)
Lemma chunk_text_lossless_run :
  chunk_text text3 3 = ["One two."; "Three four five."; "Six."] /\
  Chunker.words_of word_tokenize (chunk_text text3 3)
  = ["One"; "two."; "Three"; "four"; "five."; "Six."] /\
  Chunker.words_of word_tokenize (chunk_text text3 3) = word_tokenize text3.
Proof.
  split_and!; [reflexivity..|].
  apply (chunk_text_lossless sent_tokenize word_tokenize text3 3).
  - vm_compute. repeat constructor.
  - reflexivity.
Defined.

(** With the limit 5 the first two sentences share a chunk. *)
Lemma chunk_text_bounded_run :
  chunk_text text3 5 = ["One two. Three four five."; "Six."] /\
  Forall2 (fun chunk g =>
             chunk = join_space g /\
             (Chunker.group_words word_tokenize g <= 5 \/
              exists s, g = [s] /\ 5 < Chunker.word_count word_tokenize s))
          (chunk_text text3 5) (chunk_groups text3 5).
Proof.
  split; [reflexivity|].
  apply (chunk_text_bounded sent_tokenize word_tokenize text3 5). lia.
Defined.

(** With a negative limit the first chunk is empty: it has no word,
    which is more than the limit allows, it is not the last chunk, and
    it is not a sentence of the text. *)
Lemma chunk_text_negative_limit :
  chunk_text "One two." (-1) = [""; "One two."] /\
  chunk_groups "One two." (-1) = [[]; ["One two."]] /\
  ~ (Chunker.word_count word_tokenize "" <= -1) /\
  ~ (Chunker.group_words word_tokenize [] <= -1) /\
  ~ (exists s : string, [] = [s]) /\
  ("" ∉ sent_tokenize "One two.") /\
  ~ (forall text max_words i g,
       chunk_groups text max_words !! i = Some g ->
       (S i < length (chunk_groups text max_words))%nat ->
       Chunker.group_words word_tokenize g <= max_words \/
       exists s, g = [s] /\ max_words < Chunker.word_count word_tokenize s).
Proof.
  split_and!; [reflexivity..| | | | |].
  - vm_compute. intros H. by apply H.
  - vm_compute. intros H. by apply H.
  - intros (s & Hs). discriminate Hs.
  - vm_compute. intros H. apply list_elem_of_In in H. simpl in H.
    destruct H as [H|[]]. discriminate H.
  - intros H. destruct (H "One two." (-1) 0%nat []) as [Hle|(s & Hs & _)].
    + reflexivity.
    + vm_compute. lia.
    + vm_compute in Hle. by apply Hle.
    + discriminate Hs.
Defined.

(** With the limit 2 the second sentence, of three words, is a chunk of
    its own. *)
Lemma oversized_sentence_own_chunk_run :
  chunk_text text3 2 = ["One two."; "Three four five."; "Six."] /\
  exists gpre gpost,
    chunk_groups text3 2 = gpre ++ ["Three four five."] :: gpost /\
    concat gpre = ["One two."] /\ concat gpost = ["Six."] /\
    chunk_text text3 2
      = map join_space gpre ++ "Three four five." :: map join_space gpost.
Proof.
  split; [reflexivity|].
  apply (oversized_sentence_own_chunk sent_tokenize word_tokenize
           text3 2 ["One two."] "Three four five." ["Six."]).
  - reflexivity.
  - vm_compute. reflexivity.
Defined.

(** With the limit 1 the first sentence, of two words, comes after an
    empty chunk. *)
Lemma leading_empty_chunk_run :
  chunk_text text3 1 = [""; "One two."; "Three four five."; "Six."] /\
  exists tl, chunk_text text3 1 = "" :: "One two." :: tl.
Proof.
  split; [reflexivity|].
  apply (leading_empty_chunk sent_tokenize word_tokenize
           text3 1 "One two." ["Three four five."; "Six."]).
  - reflexivity.
  - vm_compute. reflexivity.
Defined.

(** *** The summarization client *)

(** A response with no brace, then an object with one key only. *)
Lemma run_summary_malformed_none_run :
  Summarizer.max_retries = 2%nat /\
  run_summary "One two."
    [Returned (Some "I cannot summarise this."); Returned (Some short_doc)]
  = (Returned None, []).
Proof.
  apply (run_summary_malformed_none script agent_run (json_loads table)
           "One two." _ "I cannot summarise this." [Returned (Some short_doc)]
           short_doc []).
  - reflexivity.
  - left. left. reflexivity.
  - reflexivity.
  - right. right. exists short_members, "main_point".
    split_and!; [vm_compute; reflexivity| |vm_compute; reflexivity].
    unfold Summarizer.required_keys. set_solver.
Defined.


(** A record with an empty heading and an empty main point: the object
    has the three keys, and empty strings are strings. *)
Lemma run_summary_empty_heading :
  run_summary "One two." [Returned (Some empty_doc)]
  = (Returned (Some (mkSummaryOutput "" "" [])), []) /\
  heading (mkSummaryOutput "" "" []) = "" /\
  main_point (mkSummaryOutput "" "" []) = "".
Proof. split_and!; reflexivity. Defined.

(** The record of a response wrapped in prose, after a failed attempt. *)
Lemma run_summary_record_fields_run :
  exists w0 response_text members,
    agent_run (Prompt.build_prompt "One two.") w0
      = (Returned (Some response_text), []) /\
    json_loads table (Summarizer.json_substring response_text)
      = Some (JObject members) /\
    members !! "heading" = Some (JString "") /\
    members !! "main_point" = Some (JString "") /\
    members !! "action_items" = Some (JArray []).
Proof.
  apply (run_summary_record_fields script agent_run (json_loads table)
           "One two."
           [Raised (AgentError "timeout");
            Returned (Some ("Here you are: " +:+ empty_doc +:+ " Done."))]
           (mkSummaryOutput "" "" []) []).
  reflexivity.
Defined.
(** *** The merger *)

(** Two items that differ in case and punctuation only give one entry,
    with the wording met first. *)
Lemma consolidated_entries_case_punctuation :
  Merger.consolidated_entries str_lower re_sub_punct str_strip
    [mkSummaryOutput "Headers" "Name the columns."
       ["Use clear headers."; "Add borders"];
     mkSummaryOutput "Style" "Stay consistent."
       ["use clear headers"; "ADD borders!"]]
  = [(1%nat, "Use clear headers."); (2%nat, "Add borders")].
Proof. vm_compute. reflexivity. Qed.
End Runs.

(** * Further properties *)

(** ** The chunker *)

Section chunker_more.
Variable sent_tokenize : string -> list string.
Variable word_tokenize : string -> list string.

Local Abbreviation chunk_text := (Chunker.chunk_text sent_tokenize word_tokenize).
Local Abbreviation chunk_groups := (Chunker.chunk_groups sent_tokenize word_tokenize).
Local Abbreviation group_body := (Chunker.group_body word_tokenize).
Local Abbreviation word_count := (Chunker.word_count word_tokenize).
Local Abbreviation group_words := (Chunker.group_words word_tokenize).
Local Abbreviation maximal := (ChunkerSpec.maximal word_tokenize).
Local Abbreviation greedy := (ChunkerSpec.greedy word_tokenize).

(** X1: the chunks are the sentences of the text, grouped: each chunk is
    the join of a run of consecutive sentences, and the runs, one after
    the other, are the whole sequence of sentences.  No sentence is cut,
    dropped, repeated or moved. *)
Theorem chunk_text_partitions_sentences text max_words :
  chunk_text text max_words = map join_space (chunk_groups text max_words) /\
  concat (chunk_groups text max_words) = sent_tokenize text.
Proof.
  split.
  - apply chunk_text_groups.
  - apply chunk_groups_concat.
Qed.

(** X2: there is no chunk exactly when the text has no sentence. *)
Theorem chunk_text_nil_iff text max_words :
  chunk_text text max_words = [] <-> sent_tokenize text = [].
Proof.
  rewrite chunk_text_groups. split.
  - intros H. apply fmap_nil_inv in H.
    by rewrite <- (chunk_groups_concat sent_tokenize word_tokenize text max_words), H.
  - intros H. unfold Chunker.chunk_groups. by rewrite H.
Qed.

Lemma word_count_nonneg s : 0 <= word_count s.
Proof. unfold Chunker.word_count. lia. Qed.

Lemma foldl_all_fit max_words sentences : forall cur,
  group_words cur + group_words sentences <= max_words ->
  foldl (group_body max_words)
        (Chunker.GroupState [] cur (group_words cur)) sentences
  = Chunker.GroupState [] (cur ++ sentences)
                       (group_words cur + group_words sentences).
Proof.
  induction sentences as [|s l IH]; intros cur Hfit; simpl in *.
  - rewrite app_nil_r. f_equal. lia.
  - pose proof (group_words_nonneg word_tokenize l).
    unfold Chunker.group_body at 2. fold (word_count s). simpl.
    rewrite bool_decide_eq_true_2 by lia.
    rewrite <- (group_words_snoc word_tokenize), IH.
    + rewrite <- app_assoc. simpl. f_equal.
      rewrite (group_words_snoc word_tokenize). lia.
    + rewrite (group_words_snoc word_tokenize). lia.
Qed.

(** X3: when the sentences of the text have together at most
    [max_words] words, the text is one chunk: all its sentences, joined. *)
Theorem chunk_text_single_chunk text max_words :
  sent_tokenize text <> [] ->
  group_words (sent_tokenize text) <= max_words ->
  chunk_text text max_words = [join_space (sent_tokenize text)].
Proof.
  intros Hne Hfit. rewrite chunk_text_groups.
  unfold Chunker.chunk_groups, Chunker.group_init.
  change 0 with (group_words []).
  rewrite foldl_all_fit by (simpl; lia).
  unfold Chunker.flush_groups. simpl.
  by destruct (sent_tokenize text).
Qed.
(** *** Groups are closed only when the next sentence does not fit *)

Lemma maximal_snoc_grow max_words gs g s :
  (gs <> [] -> g <> []) ->
  maximal max_words (gs ++ [g]) ->
  maximal max_words (gs ++ [g ++ [s]]).
Proof.
  induction gs as [|g1 gs IH]; intros Hne H; [done|].
  destruct gs as [|g2 gs].
  - simpl in *. destruct H as ((s0 & rest & -> & Hbig) & _).
    split; [|done]. exists s0, (rest ++ [s]). done.
  - destruct H as (Hpair & H). split; [done|].
    apply IH; [intros _; by apply Hne|done].
Qed.

Lemma maximal_snoc_close max_words gs g s :
  max_words < group_words g + word_count s ->
  maximal max_words (gs ++ [g]) ->
  maximal max_words ((gs ++ [g]) ++ [[s]]).
Proof.
  intros Hbig. induction gs as [|g1 gs IH]; intros H.
  - simpl. split; [|done]. by exists s, [].
  - destruct gs as [|g2 gs].
    + simpl in *. split; [by apply H|]. split; [|done]. by exists s, [].
    + destruct H as (Hpair & H). split; [done|]. by apply IH.
Qed.

Lemma greedy_body max_words st sentence :
  greedy max_words st -> greedy max_words (group_body max_words st sentence).
Proof.
  intros (Hmax & Hlen & Hne). unfold Chunker.group_body.
  fold (word_count sentence).
  case_bool_decide as Hfit; split_and!; simpl.
  - by apply maximal_snoc_grow.
  - rewrite (group_words_snoc word_tokenize). lia.
  - intros _. by destruct (Chunker.group_chunk st).
  - apply maximal_snoc_close; [lia|done].
  - lia.
  - done.
Qed.

Lemma greedy_foldl max_words sentences : forall st,
  greedy max_words st ->
  greedy max_words (foldl (group_body max_words) st sentences).
Proof.
  induction sentences as [|s l IH]; intros st H; simpl; [done|].
  by apply IH, greedy_body.
Qed.

Lemma chunk_groups_maximal text max_words :
  maximal max_words (chunk_groups text max_words).
Proof.
  unfold Chunker.chunk_groups, Chunker.flush_groups.
  destruct (greedy_foldl max_words (sent_tokenize text) Chunker.group_init)
    as (Hmax & _ & Hne).
  { by split_and!. }
  destruct (Chunker.group_chunk _) eqn:E; [|done].
  destruct (Chunker.groups _); [done|]. by destruct Hne.
Qed.

Lemma maximal_adjacent max_words l1 : forall g1 g2 l2,
  maximal max_words (l1 ++ g1 :: g2 :: l2) ->
  exists s rest,
    g2 = s :: rest /\ max_words < group_words g1 + word_count s.
Proof.
  induction l1 as [|g l1 IH]; intros g1 g2 l2 H.
  - by destruct H as (H & _).
  - apply IH with l2. destruct l1; by destruct H as (_ & H).
Qed.

(** X4: chunking is greedy: of two chunks that follow each other, the
    second begins with a sentence that did not fit into the first: the
    words of the first and of that sentence together exceed [max_words]. *)
Theorem chunk_text_greedy text max_words l1 g1 g2 l2 :
  chunk_groups text max_words = l1 ++ g1 :: g2 :: l2 ->
  chunk_text text max_words
    = map join_space l1 ++ join_space g1 :: join_space g2 :: map join_space l2 /\
  exists s rest,
    g2 = s :: rest /\ max_words < group_words g1 + word_count s.
Proof.
  intros H. split.
  - by rewrite chunk_text_groups, H, map_app.
  - apply maximal_adjacent with l1 l2. rewrite <- H. apply chunk_groups_maximal.
Qed.

(** *** The only empty chunk is a leading one *)

Lemma nonempty_body max_words st sentence n :
  Forall (fun g => g <> [])
         (drop n (Chunker.groups st ++ [Chunker.group_chunk st])) ->
  let st' := group_body max_words st sentence in
  Forall (fun g => g <> [])
         (drop n (Chunker.groups st' ++ [Chunker.group_chunk st'])).
Proof.
  intros H. unfold Chunker.group_body. case_bool_decide; simpl.
  - rewrite drop_app in *. apply Forall_app in H as (Hg & Hc).
    apply Forall_app. split; [done|].
    destruct (n - length (Chunker.groups st))%nat; simpl.
    + constructor; [|done]. by destruct (Chunker.group_chunk st).
    + rewrite drop_nil. constructor.
  - rewrite drop_app. apply Forall_app. split; [done|].
    destruct (n - _)%nat; simpl.
    + by constructor.
    + rewrite drop_nil. constructor.
Qed.

Lemma nonempty_foldl max_words n sentences : forall st,
  Forall (fun g => g <> [])
         (drop n (Chunker.groups st ++ [Chunker.group_chunk st])) ->
  let st' := foldl (group_body max_words) st sentences in
  Forall (fun g => g <> [])
         (drop n (Chunker.groups st' ++ [Chunker.group_chunk st'])).
Proof.
  induction sentences as [|s l IH]; intros st H; simpl; [done|].
  by apply IH, nonempty_body.
Qed.

Lemma flush_groups_drop n st :
  Forall (fun g => g <> [])
         (drop n (Chunker.groups st ++ [Chunker.group_chunk st])) ->
  Forall (fun g => g <> []) (drop n (Chunker.flush_groups st)).
Proof.
  unfold Chunker.flush_groups. destruct (Chunker.group_chunk st); [|done].
  rewrite drop_app. intros H. by apply Forall_app in H as (H & _).
Qed.

Lemma nonempty_groups_length (gs : list (list string)) :
  Forall (fun g => g <> []) gs -> (length gs <= length (concat gs))%nat.
Proof.
  induction 1 as [|g gs Hg _ IH]; simpl; [done|].
  rewrite length_app. destruct g; [done|]. simpl. lia.
Qed.

Lemma chunk_groups_tail_nonempty text max_words :
  Forall (fun g => g <> []) (drop 1 (chunk_groups text max_words)).
Proof. apply flush_groups_drop, nonempty_foldl. simpl. constructor. Qed.

Lemma chunk_text_length_le text max_words :
  (length (chunk_text text max_words) <= S (length (sent_tokenize text)))%nat.
Proof.
  pose proof (chunk_groups_tail_nonempty text max_words) as Htail.
  rewrite chunk_text_groups, length_map.
  rewrite <- (chunk_groups_concat sent_tokenize word_tokenize text max_words).
  destruct (chunk_groups text max_words) as [|g gs]; simpl in *; [lia|].
  rewrite ?drop_0 in Htail.
  apply nonempty_groups_length in Htail. rewrite length_app. lia.
Qed.

(** X5: no chunk after the first is empty, and the first is empty only
    when the first sentence has more words than [max_words]; so there is
    at most one chunk more than there are sentences, and no more chunks
    than sentences when the first sentence fits. *)
Theorem chunk_text_empty_chunks text max_words :
  Forall (fun g => g <> []) (drop 1 (chunk_groups text max_words)) /\
  (forall gs, chunk_groups text max_words = [] :: gs ->
     exists s rest, sent_tokenize text = s :: rest /\ max_words < word_count s) /\
  (length (chunk_text text max_words) <= S (length (sent_tokenize text)))%nat /\
  (forall s rest, sent_tokenize text = s :: rest ->
     word_count s <= max_words ->
     Forall (fun g => g <> []) (chunk_groups text max_words) /\
     (length (chunk_text text max_words) <= length (sent_tokenize text))%nat).
Proof.
  pose proof (chunk_groups_tail_nonempty text max_words) as Htail.
  assert (Hfits : forall s rest, sent_tokenize text = s :: rest ->
            word_count s <= max_words ->
            Forall (fun g => g <> []) (chunk_groups text max_words)).
  { intros s rest Hs Hfit. unfold Chunker.chunk_groups. rewrite Hs. simpl.
    apply (flush_groups_drop 0), (nonempty_foldl max_words 0).
    unfold Chunker.group_body. fold (word_count s). simpl.
    rewrite bool_decide_eq_true_2 by lia. simpl. by constructor. }
  split_and!.
  - done.
  - intros gs Hgs. destruct (sent_tokenize text) as [|s rest] eqn:Hs.
    { unfold Chunker.chunk_groups in Hgs. by rewrite Hs in Hgs. }
    exists s, rest. split; [done|].
    destruct (decide (word_count s <= max_words)) as [Hfit|]; [|lia].
    specialize (Hfits s rest eq_refl Hfit). rewrite Hgs in Hfits.
    by inv Hfits.
  - apply chunk_text_length_le.
  - intros s rest Hs Hfit. split; [by eapply Hfits|].
    rewrite chunk_text_groups, length_map.
    rewrite <- (chunk_groups_concat sent_tokenize word_tokenize text max_words).
    apply nonempty_groups_length. by eapply Hfits.
Qed.
End chunker_more.

(** ** Finding and cutting out the JSON text *)

Section string_facts.
Lemma app_cons a s t : String a s +:+ t = String a (s +:+ t).
Proof. reflexivity. Qed.

Lemma app_length s t :
  String.length (s +:+ t) = (String.length s + String.length t)%nat.
Proof. induction s as [|a s IH]; [done|]. rewrite app_cons. simpl. by rewrite IH. Qed.

Lemma app_empty_r s : s +:+ "" = s.
Proof. induction s as [|a s IH]; [done|]. by rewrite app_cons, IH. Qed.

Lemma find_lower s c : -1 <= Str.find s c.
Proof.
  induction s as [|a s IH]; simpl; [done|].
  destruct (Ascii.eqb a c); [done|]. case_bool_decide; lia.
Qed.

Lemma rfind_lower s c : -1 <= Str.rfind s c.
Proof.
  induction s as [|a s IH]; simpl; [done|].
  case_bool_decide; [|lia]. by destruct (Ascii.eqb a c).
Qed.

(** A prefix without the character shifts the first index. *)
Lemma find_app_absent pre s c :
  Str.find pre c = -1 ->
  Str.find s c <> -1 ->
  Str.find (pre +:+ s) c = Z.of_nat (String.length pre) + Str.find s c.
Proof.
  intros Hpre Hs.
  induction pre as [|a pre IH];
    [change ("" +:+ s) with s; simpl String.length; lia|].
  rewrite app_cons. simpl in Hpre. simpl Str.find.
  destruct (Ascii.eqb a c); [done|].
  assert (Hp : Str.find pre c = -1).
  { pose proof (find_lower pre c). case_bool_decide; [done|lia]. }
  clear Hpre. rewrite IH by done. pose proof (find_lower s c).
  simpl String.length. case_bool_decide; lia.
Qed.

(** So does any prefix for the last index, when the rest has the
    character. *)
Lemma rfind_app_present pre s c :
  Str.rfind s c <> -1 ->
  Str.rfind (pre +:+ s) c = Z.of_nat (String.length pre) + Str.rfind s c.
Proof.
  intros Hs.
  induction pre as [|a pre IH];
    [change ("" +:+ s) with s; simpl String.length; lia|].
  rewrite app_cons. simpl Str.rfind. rewrite IH. pose proof (rfind_lower s c).
  simpl String.length. case_bool_decide; lia.
Qed.

(** A suffix without the character does not move the last index. *)
Lemma rfind_app_absent s post c :
  Str.rfind post c = -1 -> Str.rfind (s +:+ post) c = Str.rfind s c.
Proof.
  intros Hpost. induction s as [|a s IH]; [done|].
  rewrite app_cons. simpl. by rewrite IH.
Qed.

Lemma rfind_snoc body c :
  Str.rfind (body +:+ String c "") c = Z.of_nat (String.length body).
Proof.
  induction body as [|a body IH].
  - simpl. by rewrite Ascii.eqb_refl.
  - rewrite app_cons. simpl Str.rfind. rewrite IH.
    case_bool_decide; simpl String.length; lia.
Qed.

Lemma substring_skip pre n s :
  String.substring (String.length pre) n (pre +:+ s) = String.substring 0 n s.
Proof. induction pre as [|a pre IH]; [done|]. by rewrite app_cons. Qed.

Lemma substring_prefix s post :
  String.substring 0 (String.length s) (s +:+ post) = s.
Proof.
  induction s as [|a s IH]; [by destruct post|].
  rewrite app_cons. simpl. by rewrite IH.
Qed.

Lemma slice_middle pre s post :
  Str.slice (pre +:+ s +:+ post)
            (Z.of_nat (String.length pre))
            (Z.of_nat (String.length pre) + Z.of_nat (String.length s))
  = s.
Proof.
  unfold Str.slice, Str.clamp. rewrite !app_length.
  rewrite !bool_decide_eq_false_2 by lia.
  rewrite !Z.min_l by lia.
  replace (Z.to_nat _) with (String.length pre) by lia.
  replace (Z.to_nat _) with (String.length s) by lia.
  by rewrite substring_skip, substring_prefix.
Qed.

(** An object between a text with no opening brace and a text with no
    closing brace is found and cut out exactly. *)
Lemma json_substring_middle pre body post :
  Str.find pre "{" = -1 ->
  Str.rfind post "}" = -1 ->
  ~ Summarizer.no_brace_pair (pre +:+ ("{" +:+ body +:+ "}") +:+ post) /\
  Summarizer.json_substring (pre +:+ ("{" +:+ body +:+ "}") +:+ post)
  = "{" +:+ body +:+ "}".
Proof.
  intros Hpre Hpost.
  assert (Hf0 : Str.find (("{" +:+ body +:+ "}") +:+ post) "{" = 0) by done.
  assert (Hr0 : Str.rfind (("{" +:+ body +:+ "}") +:+ post) "}"
                = Z.of_nat (String.length body) + 1).
  { rewrite rfind_app_absent by done.
    change ("{" +:+ body +:+ "}") with (String "{" (body +:+ String "}" "")).
    simpl Str.rfind. rewrite rfind_snoc. case_bool_decide; lia. }
  assert (Hf : Str.find (pre +:+ ("{" +:+ body +:+ "}") +:+ post) "{"
               = Z.of_nat (String.length pre)).
  { rewrite find_app_absent; [rewrite Hf0; lia|done|by rewrite Hf0]. }
  assert (Hr : Str.rfind (pre +:+ ("{" +:+ body +:+ "}") +:+ post) "}"
               = Z.of_nat (String.length pre) + Z.of_nat (String.length body) + 1).
  { rewrite rfind_app_present; rewrite Hr0; lia. }
  split.
  - unfold Summarizer.no_brace_pair. rewrite Hf, Hr. lia.
  - unfold Summarizer.json_substring. rewrite Hf, Hr.
    replace (_ + _ + 1 + 1)
      with (Z.of_nat (String.length pre)
            + Z.of_nat (String.length ("{" +:+ body +:+ "}"))).
    + apply slice_middle.
    + change ("{" +:+ body +:+ "}") with (String "{" (body +:+ String "}" "")).
      simpl String.length. rewrite app_length. simpl. lia.
Qed.
End string_facts.

(** ** The summarization client *)

Section summarizer_more.
Variable World : Type.
Variable agent_run : string -> World -> result (option string) * World.
Variable json_loads : string -> option json.

Local Abbreviation parse_response := (Summarizer.parse_response json_loads).
Local Abbreviation try_body := (Summarizer.try_body World agent_run json_loads).
Local Abbreviation run_summary := (Summarizer.run_summary World agent_run json_loads).
Local Abbreviation yields := (SummarizerSpec.yields json_loads).
Local Abbreviation no_response := SummarizerSpec.no_response.

(** X6: a JSON object wrapped in prose is read as the object alone: when
    the text before it has no opening brace and the text after it no
    closing brace, what is handed to [json.loads] is the object's text,
    from its opening to its closing brace, and the attempt ends as it
    would on the bare object. *)
Theorem parse_response_wrapped pre body post :
  Str.find pre "{" = -1 ->
  Str.rfind post "}" = -1 ->
  Summarizer.json_substring (pre +:+ ("{" +:+ body +:+ "}") +:+ post)
    = "{" +:+ body +:+ "}" /\
  parse_response (pre +:+ ("{" +:+ body +:+ "}") +:+ post)
    = parse_response ("{" +:+ body +:+ "}").
Proof.
  intros Hpre Hpost.
  destruct (json_substring_middle pre body post Hpre Hpost) as (Hb & Hsub).
  destruct (json_substring_middle "" body "") as (Hb0 & Hsub0); [done..|].
  change ("" +:+ ("{" +:+ body +:+ "}") +:+ "")
    with (("{" +:+ body +:+ "}") +:+ "") in Hb0, Hsub0.
  rewrite app_empty_r in Hb0, Hsub0.
  split; [done|].
  rewrite !(parse_response_braces json_loads) by done.
  by rewrite Hsub, Hsub0.
Qed.

Lemma validate_list_str_strings items :
  Schema.validate_list_str (JArray (JString <$> items)) = Some items.
Proof.
  simpl. induction items as [|x items IH]; [done|].
  rewrite fmap_cons. simpl. by rewrite IH.
Qed.

Lemma parse_response_yields response_text s :
  yields response_text s -> parse_response response_text = Returned (Some s).
Proof.
  intros (Hb & members & Hload & Hh & Hm & Ha).
  rewrite (parse_response_braces json_loads), Hload by done.
  rewrite all_keys_in_present.
  2:{ unfold Summarizer.required_keys. repeat constructor; eauto. }
  simpl. unfold Schema.construct. rewrite Hh, Hm, Ha.
  simpl Schema.validate_str. rewrite validate_list_str_strings.
  by destruct s.
Qed.

(** X7: an answer from which a record is built ends [run_summary] at
    once: the record is returned after that one call of the provider,
    and no second attempt is made. *)
Theorem run_summary_first_attempt chunk_text w response_text s w1 :
  agent_run (Prompt.build_prompt chunk_text) w
    = (Returned (Some response_text), w1) ->
  yields response_text s ->
  run_summary chunk_text w = (Returned (Some s), w1).
Proof.
  intros Ha Hy. unfold Summarizer.run_summary. simpl.
  unfold Summarizer.try_body. rewrite Ha.
  by rewrite (parse_response_yields _ s).
Qed.


Lemma try_body_no_response prompt w r w' :
  agent_run prompt w = (r, w') -> no_response r ->
  forall s, (try_body prompt w).1 <> Returned (Some s).
Proof.
  intros Ha Hr s. unfold Summarizer.try_body. rewrite Ha.
  by destruct r as [[text|]|e].
Qed.

End summarizer_more.

(** ** How often the provider is called *)

Section counting_facts.
Variable World : Type.
Variable agent_run : string -> World -> result (option string) * World.
Variable json_loads : string -> option json.

Local Abbreviation counted := (Counting.counted World agent_run).
Local Abbreviation try_body := (Summarizer.try_body World agent_run json_loads).
Local Abbreviation try_body_counted :=
  (Summarizer.try_body (World * nat) counted json_loads).
Local Abbreviation retry_loop := (Summarizer.retry_loop World agent_run json_loads).
Local Abbreviation retry_loop_counted :=
  (Summarizer.retry_loop (World * nat) counted json_loads).
Local Abbreviation run_summary := (Summarizer.run_summary World agent_run json_loads).
Local Abbreviation run_summary_counted :=
  (Summarizer.run_summary (World * nat) counted json_loads).

Lemma try_body_counted_eq prompt w n :
  try_body_counted prompt (w, n)
  = ((try_body prompt w).1, ((try_body prompt w).2, S n)).
Proof.
  unfold Summarizer.try_body, Counting.counted. simpl.
  by destruct (agent_run prompt w) as [r w'].
Qed.

Lemma retry_loop_counted_eq prompt attempts : forall w n,
  exists k,
    retry_loop_counted attempts prompt (w, n)
    = ((retry_loop attempts prompt w).1,
       ((retry_loop attempts prompt w).2, (n + k)%nat)) /\
    (k <= length attempts)%nat /\
    (attempts <> [] -> 1 <= k)%nat /\
    ((retry_loop attempts prompt w).1 = None -> k = length attempts).
Proof.
  induction attempts as [|attempt attempts IH]; intros w n; simpl.
  - exists 0%nat. by rewrite Nat.add_0_r.
  - rewrite try_body_counted_eq.
    destruct (try_body prompt w) as [r w1]. simpl.
    destruct (IH w1 (S n)) as (k & Heq & Hle & _ & Hnone).
    destruct r as [[s|]|e].
    + exists 1%nat. split_and!; [by rewrite Nat.add_1_r|lia|lia|done].
    + exists (S k). rewrite Heq. split_and!; [|lia|lia|].
      * destruct (retry_loop attempts prompt w1). simpl.
        by rewrite Nat.add_succ_r.
      * intros H. by rewrite Hnone.
    + exists (S k). rewrite Heq. split_and!; [|lia|lia|].
      * destruct (retry_loop attempts prompt w1). simpl.
        by rewrite Nat.add_succ_r.
      * intros H. by rewrite Hnone.
Qed.

Lemma run_summary_counted_eq chunk_text w n :
  exists k,
    run_summary_counted chunk_text (w, n)
    = ((run_summary chunk_text w).1, ((run_summary chunk_text w).2, (n + k)%nat)) /\
    (1 <= k <= 2)%nat /\
    ((run_summary chunk_text w).1 = Returned None -> k = 2%nat).
Proof.
  unfold Summarizer.run_summary.
  destruct (retry_loop_counted_eq (Prompt.build_prompt chunk_text)
              (seq 0 Summarizer.max_retries) w n)
    as (k & Heq & Hle & Hge & Hnone).
  exists k. rewrite Heq.
  destruct (retry_loop _ _ w) as [r w']. simpl in *.
  split_and!; [done|by apply Hge|done|].
  intros [= ->]. by apply Hnone.
Qed.

(** X10: [run_summary] calls the provider once or twice, never more:
    counting the calls changes neither its result nor the provider's
    state, the count goes up by one or two, and by two whenever [None]
    is returned. *)
Theorem run_summary_calls chunk_text w n :
  (run_summary_counted chunk_text (w, n)).1 = (run_summary chunk_text w).1 /\
  (run_summary_counted chunk_text (w, n)).2.1 = (run_summary chunk_text w).2 /\
  (n + 1 <= (run_summary_counted chunk_text (w, n)).2.2 <= n + 2)%nat /\
  ((run_summary chunk_text w).1 = Returned None ->
   (run_summary_counted chunk_text (w, n)).2.2 = (n + 2)%nat).
Proof.
  destruct (run_summary_counted_eq chunk_text w n) as (k & -> & Hk & Hnone).
  simpl. split_and!; [done|done|lia|lia|].
  intros H. by rewrite Hnone.
Qed.

Variable console_accepts : string -> bool.

Local Abbreviation loop_body :=
  (Orchestrator.loop_body World run_summary console_accepts).
Local Abbreviation loop_body_counted :=
  (Orchestrator.loop_body (World * nat) run_summary_counted console_accepts).
Local Abbreviation summarize_chunks :=
  (Orchestrator.summarize_chunks World run_summary console_accepts).
Local Abbreviation summarize_chunks_counted :=
  (Orchestrator.summarize_chunks (World * nat) run_summary_counted
     console_accepts).

Lemma foldl_loop_body_counted chunks : forall acc w n,
  exists k,
    foldl loop_body_counted (acc, (w, n)) chunks
    = ((foldl loop_body (acc, w) chunks).1,
       ((foldl loop_body (acc, w) chunks).2, (n + k)%nat)) /\
    (length chunks <= k <= 2 * length chunks)%nat.
Proof.
  induction chunks as [|chunk chunks IH]; intros acc w n; simpl.
  - exists 0%nat. by rewrite Nat.add_0_r.
  - destruct (run_summary_counted_eq chunk w n) as (k1 & -> & Hk1 & _).
    destruct (run_summary chunk w) as [r w1]. simpl.
    assert (Hstep : forall acc',
      exists k,
        foldl loop_body_counted (acc', (w1, (n + k1)%nat)) chunks
        = ((foldl loop_body (acc', w1) chunks).1,
           ((foldl loop_body (acc', w1) chunks).2, (n + k)%nat)) /\
        (S (length chunks) <= k <= 2 * S (length chunks))%nat).
    { intros acc'. destruct (IH acc' w1 (n + k1)%nat) as (k & -> & Hk).
      exists (k1 + k)%nat. split; [by rewrite Nat.add_assoc|lia]. }
    destruct r as [[summary|]|e]; [|apply Hstep..].
    destruct (Orchestrator.printed console_accepts summary); apply Hstep.
Qed.

(** X11: a run over [n] chunks calls the provider at least [n] times and
    at most twice [n] times; counting the calls changes neither the
    summaries returned nor the provider's state. *)
Theorem summarize_chunks_calls chunks w n :
  (summarize_chunks_counted chunks (w, n)).1 = (summarize_chunks chunks w).1 /\
  (summarize_chunks_counted chunks (w, n)).2.1 = (summarize_chunks chunks w).2 /\
  (n + length chunks <= (summarize_chunks_counted chunks (w, n)).2.2
   <= n + 2 * length chunks)%nat.
Proof.
  unfold Orchestrator.summarize_chunks.
  destruct (foldl_loop_body_counted chunks [] w n) as (k & -> & Hk).
  destruct (foldl loop_body ([], w) chunks) as [l w']. simpl.
  split_and!; [done|done|lia|lia].
Qed.
End counting_facts.

(** ** The chunk orchestrator *)

Section orchestrator_more.
Variable World : Type.
Variable summarize : string -> World -> result (option SummaryOutput) * World.
Variable console_accepts : string -> bool.

Local Abbreviation loop_body :=
  (Orchestrator.loop_body World summarize console_accepts).
Local Abbreviation summarize_chunks :=
  (Orchestrator.summarize_chunks World summarize console_accepts).
Local Abbreviation outcomes := (Orchestrator.outcomes World summarize).
Local Abbreviation kept := (Orchestrator.kept console_accepts).

Lemma summarize_chunks_eq chunks w :
  summarize_chunks chunks w
  = (Returned (omap kept (outcomes chunks w).1), (outcomes chunks w).2).
Proof.
  unfold Orchestrator.summarize_chunks.
  by rewrite (foldl_loop_body World summarize console_accepts).
Qed.

Lemma outcomes_app c1 c2 w :
  outcomes (c1 ++ c2) w
  = ((outcomes c1 w).1 ++ (outcomes c2 (outcomes c1 w).2).1,
     (outcomes c2 (outcomes c1 w).2).2).
Proof.
  revert w. induction c1 as [|chunk c1 IH]; intros w; simpl.
  - by destruct (outcomes c2 w).
  - destruct (summarize chunk w) as [r w1]. rewrite IH.
    destruct (outcomes c1 w1) as [rs1 w2]. simpl.
    by destruct (outcomes c2 w2).
Qed.

(** X12: a run over two sequences of chunks, one after the other, is the
    run over the first followed by the run over the second from the
    state the first left: the summaries of the first come first and do
    not depend on what follows. *)
Theorem summarize_chunks_app c1 c2 w :
  exists l1 w1 l2 w2,
    summarize_chunks c1 w = (Returned l1, w1) /\
    summarize_chunks c2 w1 = (Returned l2, w2) /\
    summarize_chunks (c1 ++ c2) w = (Returned (l1 ++ l2), w2).
Proof.
  exists (omap kept (outcomes c1 w).1), (outcomes c1 w).2,
         (omap kept (outcomes c2 (outcomes c1 w).2).1),
         (outcomes c2 (outcomes c1 w).2).2.
  rewrite !summarize_chunks_eq, outcomes_app. simpl.
  by rewrite omap_app.
Qed.

Lemma outcomes_length chunks : forall w,
  length (outcomes chunks w).1 = length chunks.
Proof.
  induction chunks as [|chunk chunks IH]; intros w; simpl; [done|].
  destruct (summarize chunk w) as [r w1]. specialize (IH w1).
  destruct (outcomes chunks w1). simpl in *. by rewrite IH.
Qed.

Lemma omap_length_le {A B} (f : A -> option B) l :
  (length (omap f l) <= length l)%nat /\
  (length (omap f l) = length l <-> Forall (fun x => is_Some (f x)) l).
Proof.
  induction l as [|x l (IHle & IHeq)]; simpl.
  - split; [done|]. split; [constructor|done].
  - destruct (f x) as [y|] eqn:E; simpl;
      change (list_omap A B f l) with (omap f l).
    + split; [lia|]. split.
      * intros H. constructor; [by rewrite E|]. apply IHeq. lia.
      * intros H. inv H. f_equal. by apply IHeq.
    + split; [lia|]. split; [lia|].
      intros H. apply Forall_cons in H as (Hx & _).
      rewrite E in Hx. by destruct Hx.
Qed.

(** X13: there are never more summaries than chunks, and there are as
    many exactly when the call for every chunk gave a record and the
    console took the lines printed for it. *)
Theorem summarize_chunks_length chunks w :
  exists l w',
    summarize_chunks chunks w = (Returned l, w') /\
    (length l <= length chunks)%nat /\
    (length l = length chunks <->
     Forall (fun r =>
               exists s, r = Returned (Some s) /\
                         Orchestrator.printed console_accepts s = true)
            (outcomes chunks w).1).
Proof.
  eexists _, _. split; [apply summarize_chunks_eq|].
  rewrite <- (outcomes_length chunks w).
  destruct (omap_length_le kept (outcomes chunks w).1) as (Hle & Heq).
  split; [done|]. rewrite Heq. apply Forall_proper; [|done].
  intros r. unfold Orchestrator.kept. split.
  - destruct r as [[s|]|e]; intros [x Hx]; try discriminate Hx.
    exists s. split; [done|].
    by destruct (Orchestrator.printed console_accepts s).
  - intros (s & -> & ->). by eexists.
Qed.
End orchestrator_more.

(** ** The merger *)

Section merger_more.
Variable str_lower : string -> string.
Variable re_sub_punct : string -> string.
Variable str_strip : string -> string.

Local Abbreviation normalize := (Merger.normalize str_lower re_sub_punct str_strip).
Local Abbreviation first_seen := (Merger.first_seen str_lower re_sub_punct str_strip).
Local Abbreviation consolidated_entries :=
  (Merger.consolidated_entries str_lower re_sub_punct str_strip).
Local Abbreviation format_final_output :=
  (Merger.format_final_output str_lower re_sub_punct str_strip).

Lemma app_assoc_string a b c : (a +:+ b) +:+ c = a +:+ (b +:+ c).
Proof. induction a as [|x a IH]; [done|]. by rewrite !app_cons, IH. Qed.

(** What a loop appends to stays at the front. *)
Lemma foldl_append_prefix {A} (f : A -> string) l : forall init,
  exists rest, foldl (fun out e => out +:+ f e) init l = init +:+ rest.
Proof.
  induction l as [|x l IH]; intros init; simpl.
  - exists "". by rewrite app_empty_r.
  - destruct (IH (init +:+ f x)) as (rest & ->).
    exists (f x +:+ rest). apply app_assoc_string.
Qed.

(** X14: the fixed sentence is returned for the empty sequence only: a
    report on one summary or more begins with the heading of the
    detailed section. *)
Theorem format_final_output_sentinel_iff summaries :
  (format_final_output summaries = Merger.no_summaries <-> summaries = []) /\
  (summaries <> [] ->
   exists rest,
     format_final_output summaries = "=== DETAILED CHUNK SUMMARIES ===" +:+ rest).
Proof.
  assert (Hhead : summaries <> [] ->
    exists rest,
      format_final_output summaries = "=== DETAILED CHUNK SUMMARIES ===" +:+ rest).
  { intros Hne. destruct summaries as [|summary rest]; [done|].
    unfold Merger.format_final_output, Merger.detailed_output.
    destruct (foldl_append_prefix Merger.chunk_block
                (Merger.enumerate1 (summary :: rest))
                ("=== DETAILED CHUNK SUMMARIES ===" +:+ Str.nl +:+ Str.nl))
      as (blocks & ->).
    rewrite !app_assoc_string. eauto. }
  split; [|done]. split; [|by intros ->].
  intros H. destruct summaries as [|summary rest]; [done|].
  destruct Hhead as (tl & Htl); [done|].
  rewrite Htl in H. discriminate H.
Qed.

(** *** Items with distinct normalized forms *)

Lemma first_seen_distinct items : forall seen,
  NoDup (normalize <$> items) ->
  Forall (fun x => normalize x ∉ seen) items ->
  first_seen seen items = items.
Proof.
  induction items as [|x items IH]; intros seen Hnd Hseen; simpl; [done|].
  rewrite fmap_cons in Hnd. apply NoDup_cons in Hnd as (Hx & Hnd).
  apply Forall_cons in Hseen as (Hxs & Hseen).
  case_decide as Hin; [done|]. f_equal. apply IH; [done|].
  apply Forall_forall. intros y Hy Hys.
  apply elem_of_cons in Hys as [Heq|Hys].
  - apply Hx. rewrite <- Heq. by apply list_elem_of_fmap_2.
  - rewrite Forall_forall in Hseen. by apply (Hseen y).
Qed.

(** X15: nothing is dropped exactly when no two items have the same
    normalized form: the entries then carry all the items, in order. *)
Theorem consolidated_keeps_all_iff summaries :
  (consolidated_entries summaries).*2 = Merger.all_items summaries <->
  NoDup (normalize <$> Merger.all_items summaries).
Proof.
  rewrite (consolidated_entries_spec str_lower re_sub_punct str_strip).
  rewrite enumerate1_texts. split.
  - intros H. rewrite <- H.
    apply (first_seen_NoDup str_lower re_sub_punct str_strip).
  - intros H. apply first_seen_distinct; [done|].
    apply Forall_forall. intros x _. apply not_elem_of_nil.
Qed.

(** *** Merging what was merged *)

Lemma first_seen_idem items : forall seen,
  first_seen seen (first_seen seen items) = first_seen seen items.
Proof.
  induction items as [|x items IH]; intros seen; simpl; [done|].
  case_decide as Hin; [apply IH|].
  simpl. rewrite decide_False by done. by rewrite IH.
Qed.

(** X16: consolidating is idempotent: the texts of the entries, given
    back as the action items of one summary, give the same entries. *)
Theorem consolidated_idempotent summaries h m :
  consolidated_entries
    [mkSummaryOutput h m (consolidated_entries summaries).*2]
  = consolidated_entries summaries.
Proof.
  rewrite !(consolidated_entries_spec str_lower re_sub_punct str_strip).
  rewrite enumerate1_texts. unfold Merger.all_items at 1. simpl.
  by rewrite app_nil_r, first_seen_idem.
Qed.

(** *** Adding summaries *)

Lemma first_seen_app l1 l2 : forall seen,
  exists seen',
    first_seen seen (l1 ++ l2) = first_seen seen l1 ++ first_seen seen' l2.
Proof.
  induction l1 as [|x l1 IH]; intros seen; simpl; [by exists seen|].
  case_decide as Hin; [apply IH|].
  destruct (IH (normalize x :: seen)) as (seen' & ->). by exists seen'.
Qed.

Lemma enumerate1_app {A} (l k : list A) :
  Merger.enumerate1 (l ++ k)
  = Merger.enumerate1 l ++ zip (seq (S (length l)) (length k)) k.
Proof.
  unfold Merger.enumerate1. rewrite length_app, seq_app.
  by rewrite zip_with_app by (by rewrite length_seq).
Qed.

(** X17: summaries that come later never renumber or reword the entries
    of those before: the entries of a sequence of summaries are the
    first entries of every sequence that extends it. *)
Theorem consolidated_entries_extend summaries more :
  exists later,
    consolidated_entries (summaries ++ more)
    = consolidated_entries summaries ++ later.
Proof.
  rewrite !(consolidated_entries_spec str_lower re_sub_punct str_strip).
  unfold Merger.all_items. rewrite map_app, concat_app.
  destruct (first_seen_app (concat (map action_items summaries))
              (concat (map action_items more)) []) as (seen' & ->).
  rewrite enumerate1_app. eauto.
Qed.
End merger_more.

(** ** The merge with the string functions of the program *)

Section report_facts.
Ltac by_cases c :=
  destruct c as [[] [] [] [] [] [] [] []]; vm_compute; reflexivity.

Lemma lower_char_idem c :
  PyStr.lower_char (PyStr.lower_char c) = PyStr.lower_char c.
Proof. by_cases c. Qed.

Lemma is_word_lower c : PyStr.is_word (PyStr.lower_char c) = PyStr.is_word c.
Proof. by_cases c. Qed.

Lemma is_space_lower c : PyStr.is_space (PyStr.lower_char c) = PyStr.is_space c.
Proof. by_cases c. Qed.

Lemma lower_app a b : PyStr.lower (a +:+ b) = PyStr.lower a +:+ PyStr.lower b.
Proof.
  induction a as [|c a IH]; [done|].
  rewrite app_cons. simpl. by rewrite IH, app_cons.
Qed.

Lemma re_sub_punct_app a b :
  PyStr.re_sub_punct (a +:+ b)
  = PyStr.re_sub_punct a +:+ PyStr.re_sub_punct b.
Proof.
  induction a as [|c a IH]; [done|].
  rewrite app_cons. simpl. rewrite IH.
  by destruct (PyStr.is_word c || PyStr.is_space c).
Qed.

Lemma rstrip_snoc_space s c :
  PyStr.is_space c = true ->
  PyStr.rstrip (s +:+ String c EmptyString) = PyStr.rstrip s.
Proof.
  intros Hc. induction s as [|a s IH].
  - change (PyStr.rstrip (String c EmptyString) = EmptyString).
    simpl. by rewrite Hc.
  - rewrite app_cons. simpl. by rewrite IH.
Qed.

Lemma strip_cons_space c s :
  PyStr.is_space c = true -> PyStr.strip (String c s) = PyStr.strip s.
Proof.
  intros Hc. unfold PyStr.strip. simpl.
  destruct (PyStr.rstrip s) as [|a r]; simpl; by rewrite Hc.
Qed.

Lemma normalize_eq s :
  Report.normalize s = PyStr.strip (PyStr.re_sub_punct (PyStr.lower s)).
Proof. reflexivity. Qed.

(** Case, the removed characters and white space at the ends do not
    show in the normalized form. *)
Lemma variant_normalize a b :
  Report.variant a b -> Report.normalize a = Report.normalize b.
Proof.
  induction 1 as [s|a b _ IH|a b c _ IH1 _ IH2|pre c post|pre c post Hw Hs
                  |c s Hc|s c Hc].
  - done.
  - done.
  - by rewrite IH1.
  - rewrite !normalize_eq, !lower_app. simpl. by rewrite lower_char_idem.
  - rewrite !normalize_eq, !lower_app, !re_sub_punct_app. simpl.
    by rewrite is_word_lower, is_space_lower, Hw, Hs.
  - rewrite !normalize_eq. simpl.
    rewrite is_word_lower, is_space_lower, Hc, orb_true_r.
    apply strip_cons_space. by rewrite is_space_lower.
  - rewrite !normalize_eq, lower_app, re_sub_punct_app. simpl.
    rewrite is_word_lower, is_space_lower, Hc, orb_true_r.
    unfold PyStr.strip. rewrite rstrip_snoc_space; [done|].
    by rewrite is_space_lower.
Qed.

Lemma NoDup_fmap_eq {A B} (f : A -> B) (l : list A) x y :
  NoDup (f <$> l) -> x ∈ l -> y ∈ l -> f x = f y -> x = y.
Proof.
  induction l as [|z l IH]; intros Hnd Hx Hy Hf.
  { by apply elem_of_nil in Hx. }
  rewrite fmap_cons in Hnd. apply NoDup_cons in Hnd as (Hz & Hnd).
  apply elem_of_cons in Hx as [->|Hx]; apply elem_of_cons in Hy as [->|Hy].
  - done.
  - destruct Hz. rewrite Hf. by apply list_elem_of_fmap_2.
  - destruct Hz. rewrite <- Hf. by apply list_elem_of_fmap_2.
  - by apply IH.
Qed.

End report_facts.

(** ** The prompt *)

Section prompt_facts.
Lemma app_inv_tail_string t : forall a b, a +:+ t = b +:+ t -> a = b.
Proof.
  induction a as [|x a IH]; intros [|y b] H.
  - done.
  - apply (f_equal String.length) in H.
    rewrite !app_length in H. simpl in H. lia.
  - apply (f_equal String.length) in H.
    rewrite !app_length in H. simpl in H. lia.
  - rewrite !app_cons in H. injection H as -> H. f_equal. by apply IH.
Qed.

(** X18: the prompt holds the chunk as it is, between a fixed text and a
    fixed text, so two chunks have the same prompt only when they are the
    same chunk. *)
Theorem build_prompt_inj c1 c2 :
  Prompt.build_prompt c1 = Prompt.build_prompt c2 -> c1 = c2.
Proof.
  unfold Prompt.build_prompt. intros H.
  apply (inj (String.app Prompt.head)) in H.
  by apply app_inv_tail_string in H.
Qed.
End prompt_facts.

(** ** The main runner *)

Section main_facts.
Variable sent_tokenize : string -> list string.
Variable word_tokenize : string -> list string.
Variable World : Type.
Variable agent_run : string -> World -> result (option string) * World.
Variable json_loads : string -> option json.
Variable console_accepts : string -> bool.
Variable str_lower : string -> string.
Variable re_sub_punct : string -> string.
Variable str_strip : string -> string.

Local Abbreviation try_body := (Summarizer.try_body World agent_run json_loads).
Local Abbreviation run_summary := (Summarizer.run_summary World agent_run json_loads).
Local Abbreviation loop_body :=
  (Orchestrator.loop_body World run_summary console_accepts).
Local Abbreviation summarize_chunks :=
  (Orchestrator.summarize_chunks World run_summary console_accepts).
Local Abbreviation main :=
  (Main.main sent_tokenize word_tokenize World agent_run json_loads
     console_accepts str_lower re_sub_punct str_strip).
Local Abbreviation counted := (Counting.counted World agent_run).
Local Abbreviation main_counted :=
  (Main.main sent_tokenize word_tokenize (World * nat) counted json_loads
     console_accepts str_lower re_sub_punct str_strip).

Lemma run_summary_no_record chunk_text w :
  (forall prompt w0 s, (try_body prompt w0).1 <> Returned (Some s)) ->
  (run_summary chunk_text w).1 = Returned None.
Proof.
  intros Hfail.
  destruct (try_body (Prompt.build_prompt chunk_text) w) as [r1 w1] eqn:E1.
  destruct (try_body (Prompt.build_prompt chunk_text) w1) as [r2 w2] eqn:E2.
  rewrite (run_summary_exhausted World agent_run json_loads
             chunk_text w r1 w1 r2 w2); [done..| |].
  - intros s. specialize (Hfail (Prompt.build_prompt chunk_text) w s).
    by rewrite E1 in Hfail.
  - intros s. specialize (Hfail (Prompt.build_prompt chunk_text) w1 s).
    by rewrite E2 in Hfail.
Qed.

Lemma foldl_loop_body_no_record chunks : forall acc w,
  (forall prompt w0 s, (try_body prompt w0).1 <> Returned (Some s)) ->
  (foldl loop_body (acc, w) chunks).1 = acc.
Proof.
  induction chunks as [|chunk chunks IH]; intros acc w Hfail; simpl; [done|].
  pose proof (run_summary_no_record chunk w Hfail) as Hnone.
  destruct (run_summary chunk w) as [r w1]. simpl in Hnone. subst r.
  by apply IH.
Qed.

(** X19: when no attempt ever gives a record (the provider is down, or
    none of its answers can be used), [main] still runs to its end on
    any text that was read, and what it prints as the final summary is
    the fixed sentence. *)
Theorem main_no_summaries full_text w :
  (forall prompt w0 s, (try_body prompt w0).1 <> Returned (Some s)) ->
  exists loaded split w',
    main (Main.FileRead full_text) w
    = (Returned [loaded; split; Str.nl +:+ "=== FINAL SUMMARY ===";
                 "No valid summaries were generated."], w').
Proof.
  intros Hfail. unfold Main.main, Orchestrator.summarize_chunks.
  pose proof (foldl_loop_body_no_record
                (Chunker.chunk_text_default sent_tokenize word_tokenize full_text)
                [] w Hfail) as Hnil.
  destruct (foldl loop_body _ _) as [l w']. simpl in Hnil. subst l.
  by eexists _, _, _.
Qed.

(** X20: [main] never ends with an exception, and it calls the provider
    at most twice for every chunk, so at most twice the number of
    sentences plus two; not at all when the file could not be read.
    Counting the calls changes neither what is printed nor the
    provider's state. *)
Theorem main_calls file w n :
  (exists lines, (main file w).1 = Returned lines) /\
  (main_counted file (w, n)).1 = (main file w).1 /\
  (main_counted file (w, n)).2.1 = (main file w).2 /\
  match file with
  | Main.FileRead full_text =>
      ((main_counted file (w, n)).2.2
       <= n + 2 * S (length (sent_tokenize full_text)))%nat
  | _ => (main_counted file (w, n)).2.2 = n
  end.
Proof.
  destruct file as [|msg|full_text]; simpl; [by eauto..|].
  unfold Orchestrator.summarize_chunks.
  pose proof (chunk_text_length_le sent_tokenize word_tokenize full_text 200)
    as Hlen.
  fold (Chunker.chunk_text_default sent_tokenize word_tokenize full_text) in Hlen.
  destruct (foldl_loop_body_counted World agent_run json_loads console_accepts
              (Chunker.chunk_text_default sent_tokenize word_tokenize full_text)
              [] w n) as (k & -> & Hk).
  destruct (foldl loop_body _ _) as [l w']. simpl.
  split_and!; [by eauto|done|done|lia].
Qed.
End main_facts.

(** * More runs on concrete inputs *)

Module MoreRuns.
Import Fixtures MoreFixtures.

(** With the limit 6 the three sentences, of six words, are one chunk. *)
Lemma chunk_text_single_chunk_run :
  chunk_text text3 6 = ["One two. Three four five. Six."].
Proof.
  apply (chunk_text_single_chunk sent_tokenize word_tokenize text3 6).
  - vm_compute. discriminate.
  - vm_compute. discriminate.
Defined.

(** With the limit 3 the second chunk begins with a sentence of three
    words that did not fit beside the two of the first. *)
Lemma chunk_text_greedy_run :
  chunk_text text3 3
    = map join_space [] ++ join_space ["One two."]
      :: join_space ["Three four five."] :: map join_space [["Six."]] /\
  exists s rest,
    ["Three four five."] = s :: rest /\
    3 < Chunker.group_words word_tokenize ["One two."]
        + Chunker.word_count word_tokenize s.
Proof.
  apply (chunk_text_greedy sent_tokenize word_tokenize text3 3
           [] ["One two."] ["Three four five."] [["Six."]]).
  reflexivity.
Defined.

(** The short document between two pieces of prose. *)
Lemma parse_response_wrapped_run :
  Summarizer.json_substring
    ("Here you are: "
     +:+ ("{" +:+ field "heading" (quoted "Formatting") +:+ "}")
     +:+ " Done.")
    = "{" +:+ field "heading" (quoted "Formatting") +:+ "}" /\
  Summarizer.parse_response (json_loads table)
    ("Here you are: "
     +:+ ("{" +:+ field "heading" (quoted "Formatting") +:+ "}")
     +:+ " Done.")
    = Summarizer.parse_response (json_loads table)
        ("{" +:+ field "heading" (quoted "Formatting") +:+ "}").
Proof.
  apply (parse_response_wrapped (json_loads table) "Here you are: "
           (field "heading" (quoted "Formatting")) " Done.");
    reflexivity.
Defined.

Lemma empty_doc_yields :
  SummarizerSpec.yields (json_loads table) empty_doc (mkSummaryOutput "" "" []).
Proof.
  split.
  - intros [H|H]; vm_compute in H; discriminate H.
  - exists empty_members. split_and!; vm_compute; reflexivity.
Defined.

(** A usable answer at the first attempt: one call, and the rest of the
    script is left untouched. *)
Lemma run_summary_first_attempt_run :
  run_summary "One two."
    [Returned (Some empty_doc); Returned (Some short_doc)]
  = (Returned (Some (mkSummaryOutput "" "" [])), [Returned (Some short_doc)]).
Proof.
  apply (run_summary_first_attempt script agent_run (json_loads table)
           "One two." _ empty_doc).
  - reflexivity.
  - apply empty_doc_yields.
Defined.



(** A chunk is read back from its prompt. *)
Lemma build_prompt_inj_run :
  Prompt.build_prompt "One two." = Prompt.head +:+ "One two." +:+ Prompt.tail /\
  "One two." = "One two.".
Proof.
  split; [reflexivity|].
  apply (build_prompt_inj "One two." "One two."). reflexivity.
Defined.

(** The whole program on a text of three sentences, with the provider
    down. *)
Lemma main_no_summaries_run :
  exists loaded split w',
    Main.main sent_tokenize word_tokenize unit down no_parser any_console
      str_lower re_sub_punct str_strip (Main.FileRead text3) ()
    = (Returned [loaded; split; Str.nl +:+ "=== FINAL SUMMARY ===";
                 "No valid summaries were generated."], w').
Proof.
  apply (main_no_summaries sent_tokenize word_tokenize unit down no_parser
           any_console str_lower re_sub_punct str_strip text3 ()).
  intros prompt w0 s H. discriminate H.
Defined.

(** What [main] prints then. *)
Lemma main_down_prints :
  Main.main sent_tokenize word_tokenize unit down no_parser any_console
    str_lower re_sub_punct str_strip (Main.FileRead text3) ()
  = (Returned ["Loaded input file with 6 words";
               Str.nl +:+ "Split into 1 chunks";
               Str.nl +:+ "=== FINAL SUMMARY ===";
               "No valid summaries were generated."], ()).
Proof. vm_compute. reflexivity. Qed.
(** *** The words of a chunk read again *)

(** On the text [p. No!!] the three sentences are one chunk, their join;
    the chunk has four words and the text five: the full stop after [p]
    is a word of the text and no word of the chunk. *)
Lemma chunk_text_retokenized_words :
  nltk_sent_tokenize "p. No!!" = ["p."; "No!"; "!"] /\
  Chunker.chunk_text nltk_sent_tokenize nltk_word_tokenize "p. No!!" 200
    = ["p. No! !"] /\
  Chunker.words_of nltk_word_tokenize
    (Chunker.chunk_text nltk_sent_tokenize nltk_word_tokenize "p. No!!" 200)
    = ["p."; "No"; "!"; "!"] /\
  nltk_word_tokenize "p. No!!" = ["p"; "."; "No"; "!"; "!"] /\
  Chunker.words_of nltk_word_tokenize
    (Chunker.chunk_text nltk_sent_tokenize nltk_word_tokenize "p. No!!" 200)
    <> nltk_word_tokenize "p. No!!".
Proof.
  split_and!; [reflexivity..|].
  vm_compute. discriminate.
Qed.

(** *** Records and the console *)

(** Two chunks on an ASCII console: the first call gives a record whose
    lines are ASCII, the second gives none after two attempts. *)
Lemma summarize_chunks_successes_run :
  Orchestrator.summarize_chunks script run_summary ascii_console
    ["One two."; "Three four five."]
    [Returned (Some empty_doc); Raised (AgentError "timeout"); Returned None]
  = (Returned [mkSummaryOutput "" "" []], []).
Proof.
  apply (summarize_chunks_successes script run_summary ascii_console
           ["One two."; "Three four five."]
           [Returned (Some empty_doc); Raised (AgentError "timeout");
            Returned None]).
  vm_compute. repeat constructor; intros s H; try discriminate H.
  injection H as <-. reflexivity.
Defined.

(** On the same console a record whose heading has a letter with an
    accent is returned by the call and is not among the summaries: the
    print of its heading raises, and the append is not reached. *)
Lemma summarize_chunks_drops_unprinted :
  Orchestrator.outcomes script
    (Summarizer.run_summary script agent_run (json_loads accent_table))
    ["One two."] [Returned (Some accent_doc)]
  = ([Returned (Some accent_record)], []) /\
  omap Orchestrator.success [Returned (Some accent_record)] = [accent_record] /\
  Orchestrator.printed ascii_console accent_record = false /\
  Orchestrator.summarize_chunks script
    (Summarizer.run_summary script agent_run (json_loads accent_table))
    ascii_console ["One two."] [Returned (Some accent_doc)]
  = (Returned [], []).
Proof. split_and!; vm_compute; reflexivity. Qed.

(** *** Normalized forms *)

(** The two items of the example: they differ in case and in a full
    stop, and have one entry, with the wording met first. *)
Lemma consolidated_entries_case_full_stop :
  Report.variant "Use clear headers." "use clear headers" /\
  Report.consolidated_entries
    [mkSummaryOutput "Headers" "Name the columns." ["Use clear headers."];
     mkSummaryOutput "Style" "Stay consistent." ["use clear headers"]]
  = [(1%nat, "Use clear headers.")].
Proof.
  split; [|vm_compute; reflexivity].
  eapply Report.variant_trans.
  - apply (Report.variant_mark "Use clear headers" "."%char ""); reflexivity.
  - apply (Report.variant_case "" "U"%char "se clear headers").
Qed.

End MoreRuns.
